(** * The proton reactor (proton-c/src/reactor/reactor.c), embedded in Rocq

    The reactor is a single-threaded event loop.  Its own state is the C
    struct [pn_reactor_t]; the objects it points to (the collector, the
    timer, the selectables and the protocol entities whose attachments it
    reads) live in a small object store.  Handlers are opaque C callbacks:
    they are taken as parameters that transform the whole store. *)

From Stdlib Require Import ZArith List Bool Lia.
Import ListNotations.

Set Implicit Arguments.

(** ** Event types and object classes *)

Inductive pn_event_type_t : Type :=
| PN_EVENT_NONE
| PN_REACTOR_INIT
| PN_REACTOR_QUIESCED
| PN_REACTOR_FINAL
| PN_TIMER_TASK
| PN_CONNECTION_INIT
| PN_CONNECTION_FINAL
| PN_SELECTABLE_INIT
| PN_SELECTABLE_UPDATED
| PN_SELECTABLE_FINAL
| PN_EVENT_OTHER (code : nat).

Definition pn_event_type_eq_dec (a b : pn_event_type_t) : {a = b} + {a <> b}.
Proof. decide equality. apply Nat.eq_dec. Defined.

Definition event_type_eqb (a b : pn_event_type_t) : bool :=
  if pn_event_type_eq_dec a b then true else false.

(** Class identifiers ([CID_pn_*]), as switched on by [pn_event_reactor] and
    [pn_event_handler]. *)
Inductive pn_cid_t : Type :=
| CID_pn_reactor | CID_pn_task | CID_pn_transport | CID_pn_delivery
| CID_pn_link | CID_pn_session | CID_pn_connection | CID_pn_selectable
| CID_pn_other.

(** An event context is a [void *] together with its class.  Objects are
    named by their index in the store of their class; there is one reactor. *)
Inductive pn_object : Type :=
| ObjReactor
| ObjTask (t : nat)
| ObjTransport (t : nat)
| ObjDelivery (d : nat)
| ObjLink (l : nat)
| ObjSession (s : nat)
| ObjConnection (c : nat)
| ObjSelectable (s : nat)
| ObjOther (o : nat).

Definition pn_class_id (o : pn_object) : pn_cid_t :=
  match o with
  | ObjReactor => CID_pn_reactor
  | ObjTask _ => CID_pn_task
  | ObjTransport _ => CID_pn_transport
  | ObjDelivery _ => CID_pn_delivery
  | ObjLink _ => CID_pn_link
  | ObjSession _ => CID_pn_session
  | ObjConnection _ => CID_pn_connection
  | ObjSelectable _ => CID_pn_selectable
  | ObjOther _ => CID_pn_other
  end.

Definition pn_object_eq_dec (a b : pn_object) : {a = b} + {a <> b}.
Proof. decide equality; apply Nat.eq_dec. Defined.

Record pn_event_t : Type := mkEvent {
  pn_event_context : pn_object;
  pn_event_type : pn_event_type_t
}.

Definition pn_event_class (e : pn_event_t) : pn_cid_t :=
  pn_class_id (pn_event_context e).

(** A handler pointer: [None] is the C [NULL]. *)
Definition pn_handler_ptr : Type := option nat.

(** ** Attachments records *)

Module Attachments.

(** The three [PN_HANDLE] keys declared in reactor.c. *)
Inductive pn_handle_t : Type := PNI_TERMINATED | PN_HANDLER | PN_REACTOR.

Definition handle_eqb (a b : pn_handle_t) : bool :=
  match a, b with
  | PNI_TERMINATED, PNI_TERMINATED => true
  | PN_HANDLER, PN_HANDLER => true
  | PN_REACTOR, PN_REACTOR => true
  | _, _ => false
  end.

(** What a field may hold: [NULL], a handler or the (weak) reactor. *)
Inductive pn_value : Type := VNull | VHandler (h : nat) | VReactor.

(** Modelled from the spec: [pn_record_t] and [pn_record_def], [_has],
    [_get], [_set] belong to the object system, which is not part of
    reactor.c.  Per the spec an attachments record is a key->value map
    on an entity; a key is first defined (holding [NULL]) and then set,
    and reading an undefined key yields [NULL]. *)
Definition pn_record_t : Type := list (pn_handle_t * pn_value).

Definition pn_record : pn_record_t := [].

Fixpoint pn_record_has (r : pn_record_t) (k : pn_handle_t) : bool :=
  match r with
  | [] => false
  | (k', _) :: r' => handle_eqb k' k || pn_record_has r' k
  end.

Fixpoint pn_record_get (r : pn_record_t) (k : pn_handle_t) : pn_value :=
  match r with
  | [] => VNull
  | (k', v) :: r' => if handle_eqb k' k then v else pn_record_get r' k
  end.

Definition pn_record_def (r : pn_record_t) (k : pn_handle_t) : pn_record_t :=
  if pn_record_has r k then r else r ++ [(k, VNull)].

Fixpoint pn_record_set (r : pn_record_t) (k : pn_handle_t) (v : pn_value)
  : pn_record_t :=
  match r with
  | [] => []
  | (k', v') :: r' =>
      if handle_eqb k' k then (k', v) :: r' else (k', v') :: pn_record_set r' k v
  end.

(** reactor.c, [pn_record_get_handler] *)
Definition pn_record_get_handler (r : pn_record_t) : pn_handler_ptr :=
  match pn_record_get r PN_HANDLER with
  | VHandler h => Some h
  | _ => None
  end.

(** reactor.c, [pn_record_set_handler] *)
Definition pn_record_set_handler (r : pn_record_t) (h : pn_handler_ptr)
  : pn_record_t :=
  pn_record_set (pn_record_def r PN_HANDLER) PN_HANDLER
    (match h with Some n => VHandler n | None => VNull end).

(** reactor.c, [pni_record_get_reactor]: [true] when the weak reference
    to the reactor is there. *)
Definition pni_record_get_reactor (r : pn_record_t) : bool :=
  match pn_record_get r PN_REACTOR with
  | VReactor => true
  | _ => false
  end.

(** reactor.c, [pni_record_init_reactor] *)
Definition pni_record_init_reactor (r : pn_record_t) : pn_record_t :=
  pn_record_set (pn_record_def r PN_REACTOR) PN_REACTOR VReactor.

End Attachments.
Import Attachments.

(** ** The collector *)

Module Collector.

(** Modelled from the spec: [pn_collector_t] with [pn_collector_put],
    [_peek], [_pop] and [_release] is defined in the event module, which is
    not part of reactor.c.  Per the spec the collector is a stable FIFO:
    put appends, peek reads the head without removing it, pop removes the
    head, release abandons every pending event; and once the collector is
    released, later calls on it are no-ops (the [freed] flag). *)
Record pn_collector_t : Type := mkCollector {
  queue : list pn_event_t;
  freed : bool
}.

Definition pn_collector : pn_collector_t := mkCollector [] false.

Definition pn_collector_put (c : pn_collector_t) (context : pn_object)
           (type : pn_event_type_t) : pn_collector_t :=
  if freed c then c
  else mkCollector (queue c ++ [mkEvent context type]) (freed c).

Definition pn_collector_peek (c : pn_collector_t) : option pn_event_t :=
  match queue c with
  | [] => None
  | e :: _ => Some e
  end.

Definition pn_collector_pop (c : pn_collector_t) : pn_collector_t :=
  mkCollector (tl (queue c)) (freed c).

Definition pn_collector_release (c : pn_collector_t) : pn_collector_t :=
  mkCollector [] true.

End Collector.
Import Collector.

(** ** The timer *)

Module Timer.

(** Modelled from the spec: [pn_timer_t] ([pn_timer_schedule], [_tick],
    [_deadline], [_tasks]) is not part of reactor.c.  Per the spec it is a
    min-heap of deadline->task entries; tasks with equal deadlines come out
    in insertion order.  The pending entries are kept sorted by deadline. *)
Definition pn_timer_t : Type := list (Z * nat).

Definition pn_timer : pn_timer_t := [].

Definition pn_timer_tasks (t : pn_timer_t) : Z := Z.of_nat (length t).

Definition pn_timer_deadline (t : pn_timer_t) : Z :=
  match t with
  | [] => 0%Z
  | (d, _) :: _ => d
  end.

Fixpoint timer_insert (d : Z) (task : nat) (t : pn_timer_t) : pn_timer_t :=
  match t with
  | [] => [(d, task)]
  | (d', k) :: t' =>
      if (d <? d')%Z then (d, task) :: t else (d', k) :: timer_insert d task t'
  end.

(** The tasks whose deadline has passed, and what stays pending. *)
Fixpoint timer_matured (now : Z) (t : pn_timer_t) : list nat :=
  match t with
  | [] => []
  | (d, k) :: t' => if (d <=? now)%Z then k :: timer_matured now t' else []
  end.

Fixpoint timer_pending (now : Z) (t : pn_timer_t) : pn_timer_t :=
  match t with
  | [] => []
  | (d, k) :: t' => if (d <=? now)%Z then timer_pending now t' else t
  end.

End Timer.
Import Timer.

(** ** Selectables and protocol entities *)

(** The two callbacks reactor.c installs on a selectable. *)
Inductive sel_callback : Type := cb_pni_selectable_release | cb_pni_timer_expired.

(** Modelled from the spec: [pn_selectable_t] is declared in selectable.h,
    outside reactor.c.  Per the spec a selectable has an owning reactor (its
    context), a deadline, a terminal bit, callbacks and attachments. *)
Record pn_selectable_t : Type := mkSelectable {
  sel_terminal : bool;
  sel_deadline : Z;
  sel_attachments : pn_record_t;
  sel_context : option pn_object;
  sel_collecting : bool;
  sel_on_release : option sel_callback;
  sel_on_expired : option sel_callback
}.

(** [pn_selectable()]: a fresh selectable. *)
Definition pn_selectable : pn_selectable_t :=
  mkSelectable false 0%Z pn_record None false None None.

Definition set_sel_terminal (b : bool) (s : pn_selectable_t) : pn_selectable_t :=
  mkSelectable b (sel_deadline s) (sel_attachments s) (sel_context s)
    (sel_collecting s) (sel_on_release s) (sel_on_expired s).

Definition set_sel_deadline (d : Z) (s : pn_selectable_t) : pn_selectable_t :=
  mkSelectable (sel_terminal s) d (sel_attachments s) (sel_context s)
    (sel_collecting s) (sel_on_release s) (sel_on_expired s).

Definition set_sel_attachments (r : pn_record_t) (s : pn_selectable_t)
  : pn_selectable_t :=
  mkSelectable (sel_terminal s) (sel_deadline s) r (sel_context s)
    (sel_collecting s) (sel_on_release s) (sel_on_expired s).

Definition set_sel_context (c : option pn_object) (s : pn_selectable_t)
  : pn_selectable_t :=
  mkSelectable (sel_terminal s) (sel_deadline s) (sel_attachments s) c
    (sel_collecting s) (sel_on_release s) (sel_on_expired s).

Definition set_sel_collecting (b : bool) (s : pn_selectable_t) : pn_selectable_t :=
  mkSelectable (sel_terminal s) (sel_deadline s) (sel_attachments s)
    (sel_context s) b (sel_on_release s) (sel_on_expired s).

Definition set_sel_on_release (c : option sel_callback) (s : pn_selectable_t)
  : pn_selectable_t :=
  mkSelectable (sel_terminal s) (sel_deadline s) (sel_attachments s)
    (sel_context s) (sel_collecting s) c (sel_on_expired s).

Definition set_sel_on_expired (c : option sel_callback) (s : pn_selectable_t)
  : pn_selectable_t :=
  mkSelectable (sel_terminal s) (sel_deadline s) (sel_attachments s)
    (sel_context s) (sel_collecting s) (sel_on_release s) c.

(** The entity graph that handler resolution walks: a delivery knows its
    link, a link its session, a session its connection; a transport may be
    bound to a connection. *)
Record pn_delivery_t : Type := mkDelivery { delivery_link : nat }.

Record pn_link_t : Type := mkLink {
  link_session : nat;
  link_attachments : pn_record_t
}.

Record pn_session_t : Type := mkSession {
  session_connection : nat;
  session_attachments : pn_record_t
}.

Record pn_connection_t : Type := mkConnection {
  connection_attachments : pn_record_t
}.

Record pn_transport_t : Type := mkTransport {
  transport_connection : option nat;
  transport_attachments : pn_record_t
}.

Record pn_task_t : Type := mkTask { task_attachments : pn_record_t }.

(** ** The reactor struct and the object store *)

(** [struct pn_reactor_t].  The collector and the timer are held by value:
    the reactor is their only user here.  [io] is never looked into by
    reactor.c and is left out.  [selectables] and [timeout] are C [int]s and
    [now] is a 64-bit timestamp; signed overflow is undefined in C and out
    of reach in practice (2^31 live selectables), so they are plain
    integers. *)
Record pn_reactor_t : Type := mkReactor {
  attachments : pn_record_t;
  collector : pn_collector_t;
  global : pn_handler_ptr;
  handler : pn_handler_ptr;
  children : list nat;
  timer : pn_timer_t;
  selectable : option nat;
  previous : pn_event_type_t;
  now : Z;
  selectables : Z;
  timeout : Z;
  yield : bool
}.

Definition set_collector (v : pn_collector_t) (r : pn_reactor_t) : pn_reactor_t :=
  mkReactor (attachments r) v (global r) (handler r) (children r) (timer r)
    (selectable r) (previous r) (now r) (selectables r) (timeout r) (yield r).

Definition set_global (v : pn_handler_ptr) (r : pn_reactor_t) : pn_reactor_t :=
  mkReactor (attachments r) (collector r) v (handler r) (children r) (timer r)
    (selectable r) (previous r) (now r) (selectables r) (timeout r) (yield r).

Definition set_handler (v : pn_handler_ptr) (r : pn_reactor_t) : pn_reactor_t :=
  mkReactor (attachments r) (collector r) (global r) v (children r) (timer r)
    (selectable r) (previous r) (now r) (selectables r) (timeout r) (yield r).

Definition set_children (v : list nat) (r : pn_reactor_t) : pn_reactor_t :=
  mkReactor (attachments r) (collector r) (global r) (handler r) v (timer r)
    (selectable r) (previous r) (now r) (selectables r) (timeout r) (yield r).

Definition set_timer (v : pn_timer_t) (r : pn_reactor_t) : pn_reactor_t :=
  mkReactor (attachments r) (collector r) (global r) (handler r) (children r) v
    (selectable r) (previous r) (now r) (selectables r) (timeout r) (yield r).

Definition set_selectable (v : option nat) (r : pn_reactor_t) : pn_reactor_t :=
  mkReactor (attachments r) (collector r) (global r) (handler r) (children r)
    (timer r) v (previous r) (now r) (selectables r) (timeout r) (yield r).

Definition set_previous (v : pn_event_type_t) (r : pn_reactor_t) : pn_reactor_t :=
  mkReactor (attachments r) (collector r) (global r) (handler r) (children r)
    (timer r) (selectable r) v (now r) (selectables r) (timeout r) (yield r).

Definition set_now (v : Z) (r : pn_reactor_t) : pn_reactor_t :=
  mkReactor (attachments r) (collector r) (global r) (handler r) (children r)
    (timer r) (selectable r) (previous r) v (selectables r) (timeout r) (yield r).

Definition set_selectables (v : Z) (r : pn_reactor_t) : pn_reactor_t :=
  mkReactor (attachments r) (collector r) (global r) (handler r) (children r)
    (timer r) (selectable r) (previous r) (now r) v (timeout r) (yield r).

Definition set_timeout (v : Z) (r : pn_reactor_t) : pn_reactor_t :=
  mkReactor (attachments r) (collector r) (global r) (handler r) (children r)
    (timer r) (selectable r) (previous r) (now r) (selectables r) v (yield r).

Definition set_yield (v : bool) (r : pn_reactor_t) : pn_reactor_t :=
  mkReactor (attachments r) (collector r) (global r) (handler r) (children r)
    (timer r) (selectable r) (previous r) (now r) (selectables r) (timeout r) v.

(** The whole state a handler can see and change: the reactor, the objects
    it points to, and the platform clock read by [pn_i_now]. *)
Record world : Type := mkWorld {
  reactor : pn_reactor_t;
  sels : list pn_selectable_t;
  tasks : list pn_task_t;
  connections : list pn_connection_t;
  sessions : list pn_session_t;
  links : list pn_link_t;
  deliveries : list pn_delivery_t;
  transports : list pn_transport_t;
  clock : Z
}.

Definition set_reactor (r : pn_reactor_t) (w : world) : world :=
  mkWorld r (sels w) (tasks w) (connections w) (sessions w) (links w)
    (deliveries w) (transports w) (clock w).

Definition set_sels (v : list pn_selectable_t) (w : world) : world :=
  mkWorld (reactor w) v (tasks w) (connections w) (sessions w) (links w)
    (deliveries w) (transports w) (clock w).

Definition set_tasks (v : list pn_task_t) (w : world) : world :=
  mkWorld (reactor w) (sels w) v (connections w) (sessions w) (links w)
    (deliveries w) (transports w) (clock w).

Definition set_connections (v : list pn_connection_t) (w : world) : world :=
  mkWorld (reactor w) (sels w) (tasks w) v (sessions w) (links w)
    (deliveries w) (transports w) (clock w).

Definition upd_reactor (f : pn_reactor_t -> pn_reactor_t) (w : world) : world :=
  set_reactor (f (reactor w)) w.

(** Update of the object at index [i]; nothing happens out of range. *)
Fixpoint list_update {A : Type} (l : list A) (i : nat) (f : A -> A) : list A :=
  match l, i with
  | [], _ => []
  | x :: l', O => f x :: l'
  | x :: l', S i' => x :: list_update l' i' f
  end.

Definition upd_sel (sel : nat) (f : pn_selectable_t -> pn_selectable_t)
           (w : world) : world :=
  set_sels (list_update (sels w) sel f) w.

(** The events waiting in the reactor's collector. *)
Definition events (w : world) : list pn_event_t := queue (collector (reactor w)).

(** [pn_collector_put(reactor->collector, PN_OBJECT, context, type)] *)
Definition reactor_put (context : pn_object) (type : pn_event_type_t)
           (w : world) : world :=
  upd_reactor
    (fun r => set_collector (pn_collector_put (collector r) context type) r) w.

(** [pn_collector_release(reactor->collector)] *)
Definition reactor_release (w : world) : world :=
  upd_reactor (fun r => set_collector (pn_collector_release (collector r)) r) w.

(** Calls that leave the reactor and can be observed from outside, in the
    order they are made. *)
Inductive obs : Type :=
| ObsPre (e : pn_event_t)                          (* pni_reactor_dispatch_pre *)
| ObsDispatch (h : pn_handler_ptr) (e : pn_event_t)      (* pn_handler_dispatch *)
| ObsPost (e : pn_event_t)                        (* pni_reactor_dispatch_post *)
| ObsPop (e : option pn_event_t)                           (* pn_collector_pop *)
| ObsReturn (b : bool)                         (* pn_reactor_process returns b *)
| ObsHandlerFree (h : pn_handler_ptr)                       (* pn_handler_free *)
| ObsDecref (o : pn_object).                                      (* pn_decref *)

(** ** Accessors of the entity graph *)

Definition obind {A B : Type} (o : option A) (f : A -> option B) : option B :=
  match o with
  | Some a => f a
  | None => None
  end.

Definition pn_delivery_link (w : world) (d : nat) : option nat :=
  option_map delivery_link (nth_error (deliveries w) d).

Definition pn_link_session (w : world) (l : nat) : option nat :=
  option_map link_session (nth_error (links w) l).

Definition pn_session_connection (w : world) (s : nat) : option nat :=
  option_map session_connection (nth_error (sessions w) s).

Definition pn_transport_connection (w : world) (t : nat) : option nat :=
  obind (nth_error (transports w) t) transport_connection.

(** Attachments of an entity; a pointer that names no live object has none. *)
Definition pn_link_attachments (w : world) (l : nat) : pn_record_t :=
  match nth_error (links w) l with
  | Some x => link_attachments x
  | None => pn_record
  end.

Definition pn_session_attachments (w : world) (s : nat) : pn_record_t :=
  match nth_error (sessions w) s with
  | Some x => session_attachments x
  | None => pn_record
  end.

Definition pn_connection_attachments (w : world) (c : nat) : pn_record_t :=
  match nth_error (connections w) c with
  | Some x => connection_attachments x
  | None => pn_record
  end.

Definition pn_transport_attachments (w : world) (t : nat) : pn_record_t :=
  match nth_error (transports w) t with
  | Some x => transport_attachments x
  | None => pn_record
  end.

Definition pn_task_attachments (w : world) (t : nat) : pn_record_t :=
  match nth_error (tasks w) t with
  | Some x => task_attachments x
  | None => pn_record
  end.

Definition pn_selectable_attachments (w : world) (s : nat) : pn_record_t :=
  match nth_error (sels w) s with
  | Some x => sel_attachments x
  | None => pn_record
  end.

Definition pn_selectable_is_terminal (w : world) (s : nat) : bool :=
  match nth_error (sels w) s with
  | Some x => sel_terminal x
  | None => false
  end.

(** Modelled from the spec: [pn_selectable_terminate] and
    [pn_selectable_set_deadline], part of the selectable, set the terminal
    bit and the deadline. *)
Definition pn_selectable_terminate (s : nat) (w : world) : world :=
  upd_sel s (set_sel_terminal true) w.

Definition pn_selectable_set_deadline (s : nat) (d : Z) (w : world) : world :=
  upd_sel s (set_sel_deadline d) w.

(** reactor.c, [pni_object_connection] *)
Definition pni_object_connection (w : world) (object : pn_object) : option nat :=
  match object with
  | ObjDelivery d =>
      obind (obind (pn_delivery_link w d) (pn_link_session w))
            (pn_session_connection w)
  | ObjLink l => obind (pn_link_session w l) (pn_session_connection w)
  | ObjSession s => pn_session_connection w s
  | ObjConnection c => Some c
  | ObjTransport t => pn_transport_connection w t
  | _ => None
  end.

(** Modelled from the spec: [pn_event_link], [pn_event_session] and
    [pn_event_connection] are defined in the event module, not in reactor.c.
    Per the spec the entity associated with an event is reached from the
    event's context by walking delivery -> link -> session -> connection
    upward, the walk [pni_object_connection] above makes too. *)
Definition pn_event_link (w : world) (event : pn_event_t) : option nat :=
  match pn_event_context event with
  | ObjDelivery d => pn_delivery_link w d
  | ObjLink l => Some l
  | _ => None
  end.

Definition pn_event_session (w : world) (event : pn_event_t) : option nat :=
  match pn_event_context event with
  | ObjSession s => Some s
  | _ => obind (pn_event_link w event) (pn_link_session w)
  end.

Definition pn_event_connection (w : world) (event : pn_event_t) : option nat :=
  match pn_event_context event with
  | ObjConnection c => Some c
  | ObjTransport t => pn_transport_connection w t
  | _ => obind (pn_event_session w event) (pn_session_connection w)
  end.

(** ** reactor.c, handler-independent part *)

(** [pn_reactor_mark]: [reactor->now = pn_i_now()] *)
Definition pn_reactor_mark (w : world) : world :=
  upd_reactor (set_now (clock w)) w.

(** [pn_reactor_initialize] on a new object store.  [pn_iohandler()] and
    [pn_handler(NULL)] are the first two handler objects of that store. *)
Definition pn_reactor_initialize (clk : Z) : world :=
  pn_reactor_mark
    (mkWorld
       (mkReactor pn_record pn_collector (Some 0) (Some 1) [] pn_timer None
                  PN_EVENT_NONE 0%Z 0%Z 0%Z false)
       [] [] [] [] [] [] [] clk).

Definition pn_reactor_timeout (w : world) : Z := timeout (reactor w).

(** [pn_reactor_global]: the reference counting of the two handlers is the
    object system's business. *)
Definition pn_reactor_global (h : pn_handler_ptr) (w : world) : world :=
  upd_reactor (set_global h) w.

(** Modelled from the spec: [pn_list_remove] belongs to the object system.
    Per the spec the release callback removes the selectable from the
    children and decrements the count exactly once, a repeat being a no-op:
    the first occurrence goes, and the result tells whether there was one. *)
Fixpoint pn_list_remove (l : list nat) (x : nat) : list nat * bool :=
  match l with
  | [] => ([], false)
  | y :: l' =>
      if Nat.eqb y x then (l', true)
      else let (r, b) := pn_list_remove l' x in (y :: r, b)
  end.

(** [pni_selectable_release], the release callback of every selectable the
    reactor creates.  The reactor is the selectable's context; the
    [pn_incref]/[pn_decref] pair around the removal only keeps the object
    alive meanwhile. *)
Definition pni_selectable_release (sel : nat) (w : world) : world :=
  match obind (nth_error (sels w) sel) sel_context with
  | Some ObjReactor =>
      let (rest, found) := pn_list_remove (children (reactor w)) sel in
      let w := upd_reactor (set_children rest) w in
      if found then
        upd_reactor (fun r => set_selectables (selectables r - 1)%Z r) w
      else w
  | _ => w
  end.

(** [pn_reactor_selectable] *)
Definition pn_reactor_selectable (w : world) : world * nat :=
  let sel := length (sels w) in
  let w := set_sels (sels w ++ [pn_selectable]) w in
  let w := upd_sel sel (set_sel_collecting true) w in
  let w := reactor_put (ObjSelectable sel) PN_SELECTABLE_INIT w in
  let w := upd_sel sel (set_sel_context (Some ObjReactor)) w in
  let w := upd_reactor (fun r => set_children (children r ++ [sel]) r) w in
  let w := upd_sel sel (set_sel_on_release (Some cb_pni_selectable_release)) w in
  let w := upd_reactor (fun r => set_selectables (selectables r + 1)%Z r) w in
  (w, sel).

(** [pn_reactor_update].  A pointer that names no live selectable is outside
    the C contract; the model leaves the state alone then. *)
Definition pn_reactor_update (selectable : nat) (w : world) : world :=
  match nth_error (sels w) selectable with
  | None => w
  | Some s =>
      let record := sel_attachments s in
      if negb (pn_record_has record PNI_TERMINATED) then
        if sel_terminal s then
          let w :=
            upd_sel selectable
              (set_sel_attachments (pn_record_def record PNI_TERMINATED)) w in
          reactor_put (ObjSelectable selectable) PN_SELECTABLE_FINAL w
        else
          reactor_put (ObjSelectable selectable) PN_SELECTABLE_UPDATED w
      else w
  end.

Definition upd_connection (c : nat) (f : pn_record_t -> pn_record_t)
           (w : world) : world :=
  set_connections
    (list_update (connections w) c
       (fun x => mkConnection (f (connection_attachments x)))) w.

(** [pni_reactor_dispatch_pre] *)
Definition pni_reactor_dispatch_pre (w : world) (event : pn_event_t) : world :=
  match pn_event_type event with
  | PN_CONNECTION_INIT =>
      match pn_event_connection w event with
      | Some c => upd_connection c pni_record_init_reactor w
      | None => w
      end
  | _ => w
  end.

(** [pni_reactor] *)
Definition pni_reactor (w : world) (sel : nat) : bool :=
  match obind (nth_error (sels w) sel) sel_context with
  | Some ObjReactor => true
  | _ => false
  end.

(** [pn_event_reactor]: [true] stands for this reactor, [false] for [NULL]. *)
Definition pn_event_reactor (w : world) (event : pn_event_t) : bool :=
  let context := pn_event_context event in
  match context with
  | ObjReactor => true
  | ObjTask t => pni_record_get_reactor (pn_task_attachments w t)
  | ObjTransport t => pni_record_get_reactor (pn_transport_attachments w t)
  | ObjDelivery _ | ObjLink _ | ObjSession _ | ObjConnection _ =>
      match pni_object_connection w context with
      | Some conn => pni_record_get_reactor (pn_connection_attachments w conn)
      | None => false
      end
  | ObjSelectable sel => pni_reactor w sel
  | ObjOther _ => false
  end.

(** [pn_event_handler] *)
Definition pn_event_handler (w : world) (event : pn_event_t)
           (default_handler : pn_handler_ptr) : pn_handler_ptr :=
  let via (o : option nat) (att : world -> nat -> pn_record_t) : pn_handler_ptr :=
    obind o (fun x => pn_record_get_handler (att w x)) in
  match via (pn_event_link w event) pn_link_attachments with
  | Some h => Some h
  | None =>
  match via (pn_event_session w event) pn_session_attachments with
  | Some h => Some h
  | None =>
  match via (pn_event_connection w event) pn_connection_attachments with
  | Some h => Some h
  | None =>
      match pn_event_context event with
      | ObjTask t =>
          match pn_record_get_handler (pn_task_attachments w t) with
          | Some h => Some h
          | None => default_handler
          end
      | ObjSelectable s =>
          match pn_record_get_handler (pn_selectable_attachments w s) with
          | Some h => Some h
          | None => default_handler
          end
      | _ => default_handler
      end
  end end end.

(** The handler attached to the link, session or connection of an event, if
    the event has such an entity and the entity carries a [PN_HANDLER]. *)
Definition link_handler (w : world) (event : pn_event_t) : pn_handler_ptr :=
  obind (pn_event_link w event)
        (fun l => pn_record_get_handler (pn_link_attachments w l)).

Definition session_handler (w : world) (event : pn_event_t) : pn_handler_ptr :=
  obind (pn_event_session w event)
        (fun s => pn_record_get_handler (pn_session_attachments w s)).

Definition connection_handler (w : world) (event : pn_event_t)
  : pn_handler_ptr :=
  obind (pn_event_connection w event)
        (fun c => pn_record_get_handler (pn_connection_attachments w c)).

(** The handler attached to the task or the selectable an event is about. *)
Definition context_handler (w : world) (event : pn_event_t) : pn_handler_ptr :=
  match pn_event_context event with
  | ObjTask t => pn_record_get_handler (pn_task_attachments w t)
  | ObjSelectable s => pn_record_get_handler (pn_selectable_attachments w s)
  | _ => None
  end.

(** Modelled from the spec: [pn_timer_schedule], part of the timer, creates
    the task and files it under its deadline. *)
Definition pn_timer_schedule (deadline : Z) (w : world) : world * nat :=
  let task := length (tasks w) in
  let w := set_tasks (tasks w ++ [mkTask pn_record]) w in
  (upd_reactor (fun r => set_timer (timer_insert deadline task (timer r)) r) w,
   task).

Definition upd_task (t : nat) (f : pn_record_t -> pn_record_t) (w : world)
  : world :=
  set_tasks
    (list_update (tasks w) t (fun x => mkTask (f (task_attachments x)))) w.

(** [pn_reactor_schedule] *)
Definition pn_reactor_schedule (delay : Z) (h : pn_handler_ptr) (w : world)
  : world * nat :=
  let (w, task) := pn_timer_schedule (now (reactor w) + delay)%Z w in
  let w := upd_task task pni_record_init_reactor w in
  let w := upd_task task (fun r => pn_record_set_handler r h) w in
  match selectable (reactor w) with
  | Some sel =>
      let w :=
        pn_selectable_set_deadline sel (pn_timer_deadline (timer (reactor w))) w in
      (pn_reactor_update sel w, task)
  | None => (w, task)
  end.

(** [pni_reactor_more] *)
Definition pni_reactor_more (w : world) : bool :=
  negb (pn_timer_tasks (timer (reactor w)) =? 0)%Z
  || (1 <? selectables (reactor w))%Z.

(** [pn_reactor_yield] *)
Definition pn_reactor_yield (w : world) : world :=
  upd_reactor (set_yield true) w.

(** Modelled from the spec: [pn_timer_tick], part of the timer, removes the
    tasks whose deadline has passed and emits one [PN_TIMER_TASK] event for
    each, in deadline order. *)
Definition pn_timer_tick (now : Z) (w : world) : world :=
  let t := timer (reactor w) in
  let w := upd_reactor (set_timer (timer_pending now t)) w in
  fold_left (fun w k => reactor_put (ObjTask k) PN_TIMER_TASK w)
            (timer_matured now t) w.

(** [pni_timer_expired], the expiry callback of the timer selectable. *)
Definition pni_timer_expired (sel : nat) (w : world) : world :=
  if pni_reactor w sel then
    let w := pn_timer_tick (now (reactor w)) w in
    let w :=
      pn_selectable_set_deadline sel (pn_timer_deadline (timer (reactor w))) w in
    pn_reactor_update sel w
  else w.

(** [pni_timer_selectable] *)
Definition pni_timer_selectable (w : world) : world * nat :=
  let (w, sel) := pn_reactor_selectable w in
  let w := upd_sel sel (set_sel_on_expired (Some cb_pni_timer_expired)) w in
  let w :=
    pn_selectable_set_deadline sel (pn_timer_deadline (timer (reactor w))) w in
  (pn_reactor_update sel w, sel).

(** [pn_reactor_start] *)
Definition pn_reactor_start (w : world) : world :=
  let w := reactor_put ObjReactor PN_REACTOR_INIT w in
  let (w, sel) := pni_timer_selectable w in
  upd_reactor (set_selectable (Some sel)) w.

(** Entry points take the reactor as a C pointer.  Most of them start with
    [assert(reactor)], which aborts the program on [NULL]. *)
Inductive pn_reactor_ptr : Type := reactor_NULL | reactor_ptr.

Inductive outcome (A : Type) : Type :=
| Returns (a : A)
| AssertFails.

Arguments Returns {A} a.
Arguments AssertFails {A}.

Definition c_assert {A : Type} (reactor : pn_reactor_ptr) (body : A) : outcome A :=
  match reactor with
  | reactor_ptr => Returns body
  | reactor_NULL => AssertFails
  end.

(** [pn_reactor_free].  It tests the pointer instead of asserting it.  What
    [pn_handler_free] and [pn_decref] do belongs to the object system; the
    calls are recorded. *)
Definition pn_reactor_free (reactor_arg : pn_reactor_ptr) (w : world)
  : outcome (world * list obs) :=
  match reactor_arg with
  | reactor_ptr =>
      let h := handler (reactor w) in
      let w := reactor_release w in
      let w := upd_reactor (set_handler None) w in
      Returns (w, [ObsHandlerFree h; ObsDecref ObjReactor])
  | reactor_NULL => Returns (w, [])
  end.

(** The asserting entry points that do not run handlers. *)
Definition pn_reactor_mark_at (p : pn_reactor_ptr) (w : world) : outcome world :=
  c_assert p (pn_reactor_mark w).

Definition pn_reactor_timeout_at (p : pn_reactor_ptr) (w : world) : outcome Z :=
  c_assert p (pn_reactor_timeout w).

Definition pn_reactor_global_at (p : pn_reactor_ptr) (h : pn_handler_ptr)
           (w : world) : outcome world :=
  c_assert p (pn_reactor_global h w).

Definition pn_reactor_selectable_at (p : pn_reactor_ptr) (w : world)
  : outcome (world * nat) :=
  c_assert p (pn_reactor_selectable w).

Definition pn_reactor_update_at (p : pn_reactor_ptr) (sel : nat) (w : world)
  : outcome world :=
  c_assert p (pn_reactor_update sel w).

Definition pn_reactor_yield_at (p : pn_reactor_ptr) (w : world) : outcome world :=
  c_assert p (pn_reactor_yield w).

Definition pn_reactor_start_at (p : pn_reactor_ptr) (w : world) : outcome world :=
  c_assert p (pn_reactor_start w).

(** ** Reading a trace *)

(** The events a trace dispatches, one per pre-dispatch hook. *)
Fixpoint dispatched (log : list obs) : list pn_event_t :=
  match log with
  | [] => []
  | ObsPre e :: log' => e :: dispatched log'
  | _ :: log' => dispatched log'
  end.

Definition dispatched_types (log : list obs) : list pn_event_type_t :=
  map pn_event_type (dispatched log).

(** The handlers a trace invokes, in order. *)
Fixpoint invoked (log : list obs) : list (pn_handler_ptr * pn_event_t) :=
  match log with
  | [] => []
  | ObsDispatch h e :: log' => (h, e) :: invoked log'
  | _ :: log' => invoked log'
  end.

(** What the [pn_reactor_process] calls of a trace returned. *)
Fixpoint returned (log : list obs) : list bool :=
  match log with
  | [] => []
  | ObsReturn b :: log' => b :: returned log'
  | _ :: log' => returned log'
  end.

(** No [b] directly after an [a]. *)
Fixpoint no_pair (a b : pn_event_type_t) (l : list pn_event_type_t) : bool :=
  match l with
  | [] => true
  | x :: l' =>
      match l' with
      | [] => true
      | y :: _ =>
          negb (event_type_eqb x a && event_type_eqb y b) && no_pair a b l'
      end
  end.

(** No [PN_REACTOR_QUIESCED] directly after another one. *)
Definition quiesced_not_adjacent (l : list pn_event_type_t) : bool :=
  no_pair PN_REACTOR_QUIESCED PN_REACTOR_QUIESCED l.

(** No [PN_REACTOR_QUIESCED] directly after [PN_REACTOR_FINAL]. *)
Definition quiesced_not_after_final (l : list pn_event_type_t) : bool :=
  no_pair PN_REACTOR_FINAL PN_REACTOR_QUIESCED l.

(** No [PN_REACTOR_QUIESCED] anywhere after a [PN_REACTOR_FINAL]. *)
Fixpoint quiesced_never_after_final (l : list pn_event_type_t) : bool :=
  match l with
  | [] => true
  | a :: l' =>
      (if event_type_eqb a PN_REACTOR_FINAL
       then negb (existsb (event_type_eqb PN_REACTOR_QUIESCED) l')
       else true)
      && quiesced_never_after_final l'
  end.

Definition is_quiesced (e : pn_event_t) : bool :=
  event_type_eqb (pn_event_type e) PN_REACTOR_QUIESCED.

(** The life of one selectable as the spec words it: INIT, then any number
    of UPDATED, then at most one FINAL. *)
Fixpoint updated_then_final (l : list pn_event_type_t) : bool :=
  match l with
  | [] => true
  | PN_SELECTABLE_UPDATED :: l' => updated_then_final l'
  | PN_SELECTABLE_FINAL :: l' => match l' with [] => true | _ => false end
  | _ => false
  end.

Definition selectable_lifecycle (l : list pn_event_type_t) : bool :=
  match l with
  | PN_SELECTABLE_INIT :: l' => updated_then_final l'
  | _ => false
  end.

(** The types of the events of [q] whose context is selectable [s]. *)
Definition events_of_selectable (s : nat) (q : list pn_event_t)
  : list pn_event_type_t :=
  map pn_event_type
    (filter (fun e => if pn_object_eq_dec (pn_event_context e) (ObjSelectable s)
                      then true else false) q).

(** What client code may call between two runs of the loop, besides the loop
    itself: none of these removes an event from the collector. *)
Inductive api_call : Type :=
| CallSelectable
| CallUpdate (sel : nat)
| CallTerminate (sel : nat)
| CallSetDeadline (sel : nat) (d : Z)
| CallSchedule (delay : Z) (h : pn_handler_ptr)
| CallExpired (sel : nat)
| CallYield
| CallMark
| CallRelease (sel : nat).

Definition exec (c : api_call) (w : world) : world :=
  match c with
  | CallSelectable => fst (pn_reactor_selectable w)
  | CallUpdate sel => pn_reactor_update sel w
  | CallTerminate sel => pn_selectable_terminate sel w
  | CallSetDeadline sel d => pn_selectable_set_deadline sel d w
  | CallSchedule delay h => fst (pn_reactor_schedule delay h w)
  | CallExpired sel => pni_timer_expired sel w
  | CallYield => pn_reactor_yield w
  | CallMark => pn_reactor_mark w
  | CallRelease sel => pni_selectable_release sel w
  end.

Definition exec_all (cs : list api_call) (w : world) : world :=
  fold_left (fun w c => exec c w) cs w.

(** The [PNI_TERMINATED] marker of a selectable. *)
Definition selectable_terminated (w : world) (s : nat) : bool :=
  pn_record_has (pn_selectable_attachments w s) PNI_TERMINATED.

(** Selectable [s] is a live object and the collector still takes events. *)
Definition live (s : nat) (w : world) : Prop :=
  s < length (sels w) /\ freed (collector (reactor w)) = false.

(** A step from [w] to [w'] that publishes nothing for selectable [s] and
    leaves its marker alone. *)
Definition quiet_for (s : nat) (w w' : world) : Prop :=
  live s w ->
  live s w'
  /\ selectable_terminated w' s = selectable_terminated w s
  /\ (pn_selectable_is_terminal w s = true ->
      pn_selectable_is_terminal w' s = true)
  /\ exists l, events w' = events w ++ l /\ events_of_selectable s l = [].

(** A step that publishes for [s] nothing, or one UPDATED while [s] stays
    unmarked, or one FINAL that marks it. *)
Definition step_for (s : nat) (w w' : world) : Prop :=
  live s w ->
  (selectable_terminated w s = true -> pn_selectable_is_terminal w s = true) ->
  live s w'
  /\ (selectable_terminated w' s = true -> pn_selectable_is_terminal w' s = true)
  /\ exists l,
      events w' = events w ++ l
      /\ ((events_of_selectable s l = []
           /\ selectable_terminated w' s = selectable_terminated w s)
          \/ (events_of_selectable s l = [PN_SELECTABLE_UPDATED]
              /\ selectable_terminated w s = false
              /\ selectable_terminated w' s = false)
          \/ (events_of_selectable s l = [PN_SELECTABLE_FINAL]
              /\ selectable_terminated w s = false
              /\ selectable_terminated w' s = true)).

(** The events published so far for a selectable: INIT, some UPDATED, and
    FINAL exactly when the marker is set. *)
Definition lifecycle_so_far (evs : list pn_event_type_t) (marked : bool) : Prop :=
  exists n,
    evs = PN_SELECTABLE_INIT :: repeat PN_SELECTABLE_UPDATED n
          ++ (if marked then [PN_SELECTABLE_FINAL] else []).

(** What holds of a selectable [s] when [evs] are the selectable events
    published for it so far: it is a live object on a collector in use, its
    marker is set only if it is terminal, and [evs] is INIT, some UPDATED,
    and FINAL exactly when the marker is set. *)
Definition lifecycle_invariant (s : nat) (evs : list pn_event_type_t)
           (w : world) : Prop :=
  live s w
  /\ (selectable_terminated w s = true -> pn_selectable_is_terminal w s = true)
  /\ lifecycle_so_far evs (selectable_terminated w s).

(** A step from [w] to [w'] that only adds to the queue and keeps the life
    of selectable [s] in shape, what it publishes for [s] included. *)
Definition keeps_lifecycle (s : nat) (w w' : world) : Prop :=
  forall evs,
    lifecycle_invariant s evs w ->
    exists l,
      events w' = events w ++ l
      /\ lifecycle_invariant s (evs ++ events_of_selectable s l) w'.

(** ** Invariants and frames of the reactor *)

(** The children list and the counter kept beside it: no selectable is
    listed twice, every child is a live selectable, and [selectables] is
    the number of children. *)
Definition children_ok (w : world) : Prop :=
  NoDup (children (reactor w))
  /\ (forall c, In c (children (reactor w)) -> c < length (sels w))
  /\ selectables (reactor w) = Z.of_nat (length (children (reactor w))).

(** What [pn_reactor_process] itself never writes once it has marked the
    time: the reactor's attachments, handlers, children, timer, clock
    snapshot, counter and timeout, and every object but selectables and
    connections. *)
Definition untouched (w w' : world) : Prop :=
  attachments (reactor w') = attachments (reactor w)
  /\ global (reactor w') = global (reactor w)
  /\ handler (reactor w') = handler (reactor w)
  /\ children (reactor w') = children (reactor w)
  /\ timer (reactor w') = timer (reactor w)
  /\ now (reactor w') = now (reactor w)
  /\ selectables (reactor w') = selectables (reactor w)
  /\ timeout (reactor w') = timeout (reactor w)
  /\ tasks w' = tasks w
  /\ sessions w' = sessions w
  /\ links w' = links w
  /\ deliveries w' = deliveries w
  /\ transports w' = transports w
  /\ length (sels w') = length (sels w).

(** The event context is not a transport: its reactor is then found through
    its connection. *)
Definition on_connection_path (o : pn_object) : bool :=
  match o with
  | ObjDelivery _ | ObjLink _ | ObjSession _ | ObjConnection _ => true
  | _ => false
  end.

(** A store with a connection that no reactor has seen yet, a session on
    it and a link on the session. *)
Definition with_unbound_connection : world :=
  mkWorld (reactor (pn_reactor_initialize 0)) [] []
    [mkConnection pn_record] [mkSession 0 pn_record] [mkLink 0 pn_record]
    [mkDelivery 0] [] 0.

(** ** Handlers and states used in the examples *)

(** A handler that does nothing, and a final hook that does nothing. *)
Definition noop_dispatch (h : pn_handler_ptr) (e : pn_event_t) (w : world)
  : world := w.

Definition noop_final (e : pn_event_t) (w : world) : world := w.

(** What the I/O handler does to the reactor's own state: it releases a
    selectable once it has seen its [PN_SELECTABLE_FINAL]. *)
Definition releasing_dispatch (h : pn_handler_ptr) (e : pn_event_t) (w : world)
  : world :=
  match h, pn_event_type e, pn_event_context e with
  | Some 0, PN_SELECTABLE_FINAL, ObjSelectable s => pni_selectable_release s w
  | _, _, _ => w
  end.

(** A root handler that yields when it sees [PN_REACTOR_INIT]. *)
Definition yielding_dispatch (h : pn_handler_ptr) (e : pn_event_t) (w : world)
  : world :=
  match h, pn_event_type e with
  | Some 1, PN_REACTOR_INIT => pn_reactor_yield w
  | _, _ => w
  end.

(** A root handler that schedules a task when the timer selectable ends. *)
Definition rescheduling_dispatch (h : pn_handler_ptr) (e : pn_event_t)
           (w : world) : world :=
  match h, pn_event_type e with
  | Some 1, PN_SELECTABLE_FINAL => fst (pn_reactor_schedule 10 (Some 1) w)
  | _, _ => w
  end.

(** A handler that leaves a mark: each invocation of handler [n] publishes
    an event of type [PN_EVENT_OTHER n] on the reactor. *)
Definition recording_dispatch (h : pn_handler_ptr) (e : pn_event_t) (w : world)
  : world :=
  match h with
  | Some n => reactor_put ObjReactor (PN_EVENT_OTHER n) w
  | None => w
  end.

(** A reactor that has just been started. *)
Definition started : world := pn_reactor_start (pn_reactor_initialize 0).

(** A started reactor with one more selectable registered. *)
Definition started_with_selectable : world := fst (pn_reactor_selectable started).

(** A started reactor on which [pn_reactor_yield] has been called. *)
Definition started_then_yield : world := pn_reactor_yield started.

(** A store with a connection, a session on it, a link on the session and a
    delivery on the link; each of the three entities carries a handler. *)
Definition with_link : world :=
  mkWorld (reactor (pn_reactor_initialize 0)) [] []
    [mkConnection (pn_record_set_handler pn_record (Some 10))]
    [mkSession 0 (pn_record_set_handler pn_record (Some 11))]
    [mkLink 0 (pn_record_set_handler pn_record (Some 12))]
    [mkDelivery 0] [] 0.

Definition link_event : pn_event_t := mkEvent (ObjLink 0) (PN_EVENT_OTHER 7).

(** ** The dispatch loop *)

Section Reactor.

(** [pn_handler_dispatch(handler, event)]: what a handler does to the state
    is up to the handler. *)
Variable pn_handler_dispatch : pn_handler_ptr -> pn_event_t -> world -> world.

(** [pni_handle_final(reactor, event)], declared in reactor.c and defined
    with the connection code. *)
Variable pni_handle_final : pn_event_t -> world -> world.

(** [pni_reactor_dispatch_post] *)
Definition pni_reactor_dispatch_post (w : world) (event : pn_event_t) : world :=
  match pn_event_type event with
  | PN_CONNECTION_FINAL => pni_handle_final event w
  | _ => w
  end.

(** One turn of the [while (true)] of [pn_reactor_process]: either the loop
    goes on with a new value of the local [previous], or the call returns. *)
Inductive turn : Type :=
| Continue (previous : pn_event_type_t) (w : world) (log : list obs)
| Return (b : bool) (w : world).

Definition pop_event (w : world) : world :=
  upd_reactor (fun r => set_collector (pn_collector_pop (collector r)) r) w.

Definition process_turn (previous_local : pn_event_type_t) (w : world) : turn :=
  match pn_collector_peek (collector (reactor w)) with
  | Some event =>
      if yield (reactor w) then
        Return true (upd_reactor (set_yield false) w)
      else
        let w := upd_reactor (set_yield false) w in
        let w1 := pni_reactor_dispatch_pre w event in
        let h := pn_event_handler w1 event (handler (reactor w1)) in
        let w2 := pn_handler_dispatch h event w1 in
        let g := global (reactor w2) in
        let w3 := pn_handler_dispatch g event w2 in
        let w4 := pni_reactor_dispatch_post w3 event in
        let w5 := upd_reactor (set_previous (pn_event_type event)) w4 in
        Continue (pn_event_type event) (pop_event w5)
          [ObsPre event; ObsDispatch h event; ObsDispatch g event;
           ObsPost event; ObsPop (pn_collector_peek (collector (reactor w5)))]
  | None =>
      if pni_reactor_more w then
        if negb (event_type_eqb previous_local PN_REACTOR_QUIESCED)
           && negb (event_type_eqb (previous (reactor w)) PN_REACTOR_FINAL)
        then
          Continue previous_local
            (reactor_put ObjReactor PN_REACTOR_QUIESCED w) []
        else Return true w
      else
        match selectable (reactor w) with
        | Some sel =>
            let w := pn_selectable_terminate sel w in
            let w := pn_reactor_update sel w in
            Continue previous_local (upd_reactor (set_selectable None) w) []
        | None => Return false w
        end
  end.

(** The loop itself.  Handlers may keep it busy for ever, so it runs on
    fuel: [None] means the fuel ran out before the call returned. *)
Fixpoint process_loop (fuel : nat) (previous_local : pn_event_type_t)
         (w : world) (log : list obs) : option (bool * world * list obs) :=
  match fuel with
  | O => None
  | S fuel' =>
      match process_turn previous_local w with
      | Return b w' => Some (b, w', log ++ [ObsReturn b])
      | Continue p w' l => process_loop fuel' p w' (log ++ l)
      end
  end.

(** [pn_reactor_process] *)
Definition pn_reactor_process (fuel : nat) (w : world)
  : option (bool * world * list obs) :=
  process_loop fuel PN_EVENT_NONE (pn_reactor_mark w) [].

(** [pn_reactor_work] *)
Definition pn_reactor_work (fuel : nat) (w : world) (timeout_ms : Z)
  : option (bool * world * list obs) :=
  pn_reactor_process fuel (upd_reactor (set_timeout timeout_ms) w).

(** [pn_reactor_stop] *)
Definition pn_reactor_stop (fuel : nat) (w : world) : option (world * list obs) :=
  let w := reactor_put ObjReactor PN_REACTOR_FINAL w in
  match pn_reactor_process fuel w with
  | Some (_, w, log) =>
      Some (reactor_release w, log)
  | None => None
  end.

(** The [while (pn_reactor_work(reactor, 1000)) {}] of [pn_reactor_run];
    [rounds] bounds the number of calls. *)
Fixpoint work_loop (rounds fuel : nat) (w : world) (log : list obs)
  : option (world * list obs) :=
  match rounds with
  | O => None
  | S rounds' =>
      match pn_reactor_work fuel w 1000 with
      | Some (true, w', l) => work_loop rounds' fuel w' (log ++ l)
      | Some (false, w', l) => Some (w', log ++ l)
      | None => None
      end
  end.

(** [pn_reactor_run] *)
Definition pn_reactor_run (rounds fuel : nat) (w : world)
  : option (world * list obs) :=
  let w := pn_reactor_start w in
  match work_loop rounds fuel w [] with
  | Some (w, log) =>
      match pn_reactor_stop fuel w with
      | Some (w, log') => Some (w, log ++ log')
      | None => None
      end
  | None => None
  end.

(** The asserting entry points that run the loop. *)
Definition pn_reactor_process_at (p : pn_reactor_ptr) (fuel : nat) (w : world)
  : outcome (option (bool * world * list obs)) :=
  c_assert p (pn_reactor_process fuel w).

Definition pn_reactor_work_at (p : pn_reactor_ptr) (fuel : nat) (w : world)
           (timeout_ms : Z) : outcome (option (bool * world * list obs)) :=
  c_assert p (pn_reactor_work fuel w timeout_ms).

Definition pn_reactor_stop_at (p : pn_reactor_ptr) (fuel : nat) (w : world)
  : outcome (option (world * list obs)) :=
  c_assert p (pn_reactor_stop fuel w).

Definition pn_reactor_run_at (p : pn_reactor_ptr) (rounds fuel : nat)
           (w : world) : outcome (option (world * list obs)) :=
  c_assert p (pn_reactor_run rounds fuel w).

(** [pn_reactor_process] without the second, unconditional
    [reactor->yield = false]. *)
Definition process_turn_single_clear (previous_local : pn_event_type_t)
           (w : world) : turn :=
  match pn_collector_peek (collector (reactor w)) with
  | Some event =>
      if yield (reactor w) then
        Return true (upd_reactor (set_yield false) w)
      else
        let w1 := pni_reactor_dispatch_pre w event in
        let h := pn_event_handler w1 event (handler (reactor w1)) in
        let w2 := pn_handler_dispatch h event w1 in
        let g := global (reactor w2) in
        let w3 := pn_handler_dispatch g event w2 in
        let w4 := pni_reactor_dispatch_post w3 event in
        let w5 := upd_reactor (set_previous (pn_event_type event)) w4 in
        Continue (pn_event_type event) (pop_event w5)
          [ObsPre event; ObsDispatch h event; ObsDispatch g event;
           ObsPost event; ObsPop (pn_collector_peek (collector (reactor w5)))]
  | None =>
      if pni_reactor_more w then
        if negb (event_type_eqb previous_local PN_REACTOR_QUIESCED)
           && negb (event_type_eqb (previous (reactor w)) PN_REACTOR_FINAL)
        then
          Continue previous_local
            (reactor_put ObjReactor PN_REACTOR_QUIESCED w) []
        else Return true w
      else
        match selectable (reactor w) with
        | Some sel =>
            let w := pn_selectable_terminate sel w in
            let w := pn_reactor_update sel w in
            Continue previous_local (upd_reactor (set_selectable None) w) []
        | None => Return false w
        end
  end.

Fixpoint process_loop_single_clear (fuel : nat)
         (previous_local : pn_event_type_t) (w : world) (log : list obs)
  : option (bool * world * list obs) :=
  match fuel with
  | O => None
  | S fuel' =>
      match process_turn_single_clear previous_local w with
      | Return b w' => Some (b, w', log ++ [ObsReturn b])
      | Continue p w' l => process_loop_single_clear fuel' p w' (log ++ l)
      end
  end.

Definition pn_reactor_process_single_clear (fuel : nat) (w : world)
  : option (bool * world * list obs) :=
  process_loop_single_clear fuel PN_EVENT_NONE (pn_reactor_mark w) [].

(** The reactor still has something to do: events wait in the collector, or
    [pni_reactor_more] holds. *)
Definition has_potential_work (w : world) : Prop :=
  events w <> [] \/ pni_reactor_more w = true.

(** Nothing is left: no event, no pending work, no timer selectable. *)
Definition fully_drained (w : world) : Prop :=
  events w = [] /\ pni_reactor_more w = false /\ selectable (reactor w) = None.

(** Handlers and the final hook only ever add events to the collector. *)
Definition handlers_append_only : Prop :=
  (forall h e w, exists l, events (pn_handler_dispatch h e w) = events w ++ l)
  /\ (forall e w, exists l, events (pni_handle_final e w) = events w ++ l).

(** ... and none of the events they add is [PN_REACTOR_QUIESCED]. *)
Definition handlers_never_quiesce : Prop :=
  (forall h e w, exists l,
      events (pn_handler_dispatch h e w) = events w ++ l
      /\ existsb is_quiesced l = false)
  /\ (forall e w, exists l,
         events (pni_handle_final e w) = events w ++ l
         /\ existsb is_quiesced l = false).

(** Handlers and the final hook do not ask for a yield. *)
Definition handlers_never_yield : Prop :=
  (forall h e w,
      yield (reactor w) = false ->
      yield (reactor (pn_handler_dispatch h e w)) = false)
  /\ (forall e w,
         yield (reactor w) = false ->
         yield (reactor (pni_handle_final e w)) = false).

(** Handlers and the final hook respect the frame of the loop. *)
Definition handlers_leave_untouched : Prop :=
  (forall h e w, untouched w (pn_handler_dispatch h e w))
  /\ (forall e w, untouched w (pni_handle_final e w)).

(** Handlers and the final hook keep the children list in order. *)
Definition handlers_keep_children : Prop :=
  (forall h e w, children_ok w -> children_ok (pn_handler_dispatch h e w))
  /\ (forall e w, children_ok w -> children_ok (pni_handle_final e w)).



(** Handlers and the final hook keep the life of every selectable in
    shape: they publish for it only as [pn_reactor_update] does. *)
Definition handlers_keep_lifecycle : Prop :=
  (forall s h e w, keeps_lifecycle s w (pn_handler_dispatch h e w))
  /\ (forall s e w, keeps_lifecycle s w (pni_handle_final e w)).

(** ** Basic facts about records, the collector and the store *)

Lemma event_type_eqb_eq a b : event_type_eqb a b = true <-> a = b.
Proof.
  unfold event_type_eqb. destruct (pn_event_type_eq_dec a b); split; congruence.
Qed.

Lemma event_type_eqb_neq a b : event_type_eqb a b = false <-> a <> b.
Proof.
  unfold event_type_eqb. destruct (pn_event_type_eq_dec a b); split; congruence.
Qed.

Lemma handle_eqb_eq a b : handle_eqb a b = true <-> a = b.
Proof. destruct a, b; simpl; split; congruence. Qed.

Lemma get_set_other r k k' v :
  k <> k' -> pn_record_get (pn_record_set r k v) k' = pn_record_get r k'.
Proof.
  intros Hk. induction r as [|[k0 v0] r IH]; simpl; auto.
  destruct (handle_eqb k0 k) eqn:E; simpl.
  - apply handle_eqb_eq in E. subst k0.
    destruct (handle_eqb k k') eqn:E'; auto.
    apply handle_eqb_eq in E'. contradiction.
  - destruct (handle_eqb k0 k'); auto.
Qed.

Lemma get_app_other r k k' v :
  k <> k' -> pn_record_get (r ++ [(k, v)]) k' = pn_record_get r k'.
Proof.
  intros Hk. induction r as [|[k0 v0] r IH]; simpl.
  - destruct (handle_eqb k k') eqn:E; auto.
    apply handle_eqb_eq in E. contradiction.
  - destruct (handle_eqb k0 k'); auto.
Qed.

Lemma get_def_other r k k' :
  k <> k' -> pn_record_get (pn_record_def r k) k' = pn_record_get r k'.
Proof.
  intros Hk. unfold pn_record_def.
  destruct (pn_record_has r k); auto using get_app_other.
Qed.

Lemma has_app r k k' v :
  pn_record_has (r ++ [(k, v)]) k' = pn_record_has r k' || handle_eqb k k'.
Proof.
  induction r as [|[k0 v0] r IH]; simpl.
  - now rewrite orb_false_r.
  - rewrite IH. now rewrite orb_assoc.
Qed.

Lemma has_def_same r k : pn_record_has (pn_record_def r k) k = true.
Proof.
  unfold pn_record_def. destruct (pn_record_has r k) eqn:E; auto.
  rewrite has_app, E. simpl. now apply handle_eqb_eq.
Qed.


(** Attaching the reactor to a record leaves its handler alone. *)

Lemma get_handler_init_reactor r :
  pn_record_get_handler (pni_record_init_reactor r) = pn_record_get_handler r.
Proof.
  unfold pn_record_get_handler, pni_record_init_reactor.
  rewrite get_set_other by discriminate.
  now rewrite get_def_other by discriminate.
Qed.

Lemma put_queue c o t :
  queue (pn_collector_put c o t)
  = if freed c then queue c else queue c ++ [mkEvent o t].
Proof. unfold pn_collector_put. now destruct (freed c). Qed.

Lemma put_freed c o t : freed (pn_collector_put c o t) = freed c.
Proof. unfold pn_collector_put. now destruct (freed c) eqn:E. Qed.

Lemma put_released c o t : freed c = true -> pn_collector_put c o t = c.
Proof. unfold pn_collector_put. now intros ->. Qed.

Lemma peek_none c : pn_collector_peek c = None <-> queue c = [].
Proof.
  unfold pn_collector_peek. destruct (queue c); split; congruence.
Qed.

Lemma peek_some c e :
  pn_collector_peek c = Some e <-> exists q, queue c = e :: q.
Proof.
  unfold pn_collector_peek. destruct (queue c) as [|e' q]; split.
  - discriminate.
  - intros [q' H]. discriminate.
  - intros [= ->]. now exists q.
  - intros [q' [= -> ->]]. reflexivity.
Qed.

Lemma list_update_length {A : Type} (l : list A) i f :
  length (list_update l i f) = length l.
Proof.
  revert i. induction l as [|x l IH]; intros [|i]; simpl; auto.
Qed.

Lemma nth_error_list_update_other {A : Type} (l : list A) i j f :
  i <> j -> nth_error (list_update l i f) j = nth_error l j.
Proof.
  revert i j. induction l as [|x l IH]; intros [|i] [|j] Hij; simpl; auto.
  congruence.
Qed.

Lemma nth_error_list_update_same {A : Type} (l : list A) i f :
  nth_error (list_update l i f) i = option_map f (nth_error l i).
Proof.
  revert i. induction l as [|x l IH]; intros [|i]; simpl; auto.
Qed.

Lemma events_reactor_put o t w :
  events (reactor_put o t w)
  = if freed (collector (reactor w)) then events w
    else events w ++ [mkEvent o t].
Proof. unfold events, reactor_put. simpl. apply put_queue. Qed.

Lemma freed_reactor_put o t w :
  freed (collector (reactor (reactor_put o t w))) = freed (collector (reactor w)).
Proof. unfold reactor_put. simpl. apply put_freed. Qed.

(** Clearing a flag that is already clear changes nothing. *)
Lemma clear_yield_idle w :
  yield (reactor w) = false -> upd_reactor (set_yield false) w = w.
Proof.
  destruct w as [r ? ? ? ? ? ? ? ?]. destruct r. simpl. intros ->. reflexivity.
Qed.

(** Putting into a released collector changes nothing. *)
Lemma reactor_put_released o t w :
  freed (collector (reactor w)) = true -> reactor_put o t w = w.
Proof.
  intros H. unfold reactor_put, upd_reactor. rewrite put_released by exact H.
  destruct w as [r ? ? ? ? ? ? ? ?]. destruct r. reflexivity.
Qed.

Lemma process_turn_single_clear_eq previous_local w :
  process_turn_single_clear previous_local w = process_turn previous_local w.
Proof.
  unfold process_turn_single_clear, process_turn.
  destruct (pn_collector_peek (collector (reactor w))) as [event|]; auto.
  destruct (yield (reactor w)) eqn:Y; auto.
  now rewrite (clear_yield_idle w Y).
Qed.

Lemma process_loop_single_clear_eq fuel previous_local w log :
  process_loop_single_clear fuel previous_local w log
  = process_loop fuel previous_local w log.
Proof.
  revert previous_local w log.
  induction fuel as [|fuel IH]; intros; simpl; auto.
  rewrite process_turn_single_clear_eq.
  destruct (process_turn previous_local w); auto.
Qed.

(** C9.  In [pn_reactor_process], when an event is present and the early
    return for a set yield flag is not taken, the flag is already false at
    the unconditional [reactor->yield = false] that follows, so that
    assignment changes nothing; and the loop without it computes, on every
    state and for every amount of fuel, exactly what the original does. *)
Theorem process_second_yield_clear_is_noop :
  (forall w event,
      pn_collector_peek (collector (reactor w)) = Some event ->
      yield (reactor w) = false ->
      upd_reactor (set_yield false) w = w)
  /\ (forall previous_local w,
         process_turn_single_clear previous_local w
         = process_turn previous_local w)
  /\ (forall fuel w,
         pn_reactor_process_single_clear fuel w = pn_reactor_process fuel w).
Proof.
  split; [|split].
  - intros w event _ Y. now apply clear_yield_idle.
  - apply process_turn_single_clear_eq.
  - intros. apply process_loop_single_clear_eq.
Qed.

(** *** How a call of [pn_reactor_process] ends *)


Lemma process_turn_return previous_local w b w' :
  process_turn previous_local w = Return b w' ->
  (b = true /\ has_potential_work w') \/ (b = false /\ fully_drained w').
Proof.
  unfold process_turn, has_potential_work, fully_drained.
  destruct (pn_collector_peek (collector (reactor w))) as [event|] eqn:P.
  - destruct (yield (reactor w)); [|discriminate].
    intros [= <- <-]. left. split; auto. left.
    apply peek_some in P. destruct P as [q Hq].
    unfold events. simpl. rewrite Hq. discriminate.
  - apply peek_none in P.
    destruct (pni_reactor_more w) eqn:M.
    + destruct (negb _ && negb _); [discriminate|].
      intros [= <- <-]. left. auto.
    + destruct (selectable (reactor w)) eqn:S; [discriminate|].
      intros [= <- <-]. right. auto.
Qed.

Lemma process_loop_return fuel previous_local w log b w' log' :
  process_loop fuel previous_local w log = Some (b, w', log') ->
  (b = true /\ has_potential_work w') \/ (b = false /\ fully_drained w').
Proof.
  revert previous_local w log.
  induction fuel as [|fuel IH]; intros p w log; simpl; [discriminate|].
  destruct (process_turn p w) as [p' w1 l|b1 w1] eqn:T.
  - apply IH.
  - intros [= <- <- <-]. eapply process_turn_return; eauto.
Qed.


(** *** Handler resolution *)

Lemma pn_event_handler_unfold w event d :
  pn_event_handler w event d
  = match link_handler w event with
    | Some h => Some h
    | None =>
        match session_handler w event with
        | Some h => Some h
        | None =>
            match connection_handler w event with
            | Some h => Some h
            | None =>
                match context_handler w event with
                | Some h => Some h
                | None => d
                end
            end
        end
    end.
Proof.
  unfold pn_event_handler, link_handler, session_handler, connection_handler,
    context_handler.
  destruct (obind (pn_event_link w event) _); auto.
  destruct (obind (pn_event_session w event) _); auto.
  destruct (obind (pn_event_connection w event) _); auto.
  destruct (pn_event_context event); auto.
Qed.

Lemma connection_handler_upd_init c c' w :
  pn_record_get_handler
    (pn_connection_attachments (upd_connection c pni_record_init_reactor w) c')
  = pn_record_get_handler (pn_connection_attachments w c').
Proof.
  unfold pn_connection_attachments, upd_connection. simpl.
  destruct (Nat.eq_dec c c') as [->|N].
  - rewrite nth_error_list_update_same.
    destruct (nth_error (connections w) c'); simpl; auto.
    apply get_handler_init_reactor.
  - now rewrite nth_error_list_update_other.
Qed.

(** The pre-dispatch hook does not change which handler an event resolves
    to: it only attaches the reactor to a connection. *)
Lemma pn_event_handler_pre w event event' d :
  pn_event_handler (pni_reactor_dispatch_pre w event) event' d
  = pn_event_handler w event' d.
Proof.
  unfold pni_reactor_dispatch_pre.
  destruct (pn_event_type event); auto.
  destruct (pn_event_connection w event) as [c|]; auto.
  rewrite !pn_event_handler_unfold.
  assert (L : link_handler (upd_connection c pni_record_init_reactor w) event'
              = link_handler w event') by reflexivity.
  assert (S : session_handler (upd_connection c pni_record_init_reactor w) event'
              = session_handler w event') by reflexivity.
  assert (X : context_handler (upd_connection c pni_record_init_reactor w) event'
              = context_handler w event') by reflexivity.
  assert (C : connection_handler (upd_connection c pni_record_init_reactor w)
                event'
              = connection_handler w event').
  { unfold connection_handler.
    change (pn_event_connection (upd_connection c pni_record_init_reactor w)
              event')
      with (pn_event_connection w event').
    destruct (pn_event_connection w event'); simpl; auto.
    apply connection_handler_upd_init. }
  now rewrite L, S, X, C.
Qed.

Lemma reactor_pre w event : reactor (pni_reactor_dispatch_pre w event) = reactor w.
Proof.
  unfold pni_reactor_dispatch_pre.
  destruct (pn_event_type event); auto.
  destruct (pn_event_connection w event); auto.
Qed.

(** C2.  Handler resolution is most specific first: the link's handler if
    the event has a link that carries one, else the session's, else the
    connection's, else the handler of the task (on task events) or of the
    selectable (on selectable events), else the reactor's root handler.  In
    the loop the state after the turn of an event is the one reached by
    the pre-dispatch hook, the resolved handler, the global handler, the
    post-dispatch hook and the pop, in this order: exactly two handlers
    are applied, the resolved one and then the global one; so when the
    link carries a handler, no session or connection handler is invoked
    as such, and the global handler still is. *)
Theorem handler_resolution_most_specific_first :
  (forall w event d h,
      link_handler w event = Some h -> pn_event_handler w event d = Some h)
  /\ (forall w event d h,
         link_handler w event = None ->
         session_handler w event = Some h ->
         pn_event_handler w event d = Some h)
  /\ (forall w event d h,
         link_handler w event = None ->
         session_handler w event = None ->
         connection_handler w event = Some h ->
         pn_event_handler w event d = Some h)
  /\ (forall w event d h,
         link_handler w event = None ->
         session_handler w event = None ->
         connection_handler w event = None ->
         (exists t, pn_event_context event = ObjTask t
                    /\ pn_record_get_handler (pn_task_attachments w t) = Some h)
         \/ (exists s, pn_event_context event = ObjSelectable s
                       /\ pn_record_get_handler (pn_selectable_attachments w s)
                          = Some h) ->
         pn_event_handler w event d = Some h)
  /\ (forall w event d,
         link_handler w event = None ->
         session_handler w event = None ->
         connection_handler w event = None ->
         context_handler w event = None ->
         pn_event_handler w event d = d)
  /\ (forall p w event,
         pn_collector_peek (collector (reactor w)) = Some event ->
         yield (reactor w) = false ->
         let w1 :=
           pni_reactor_dispatch_pre (upd_reactor (set_yield false) w) event in
         let h := pn_event_handler w event (handler (reactor w)) in
         let w2 := pn_handler_dispatch h event w1 in
         let g := global (reactor w2) in
         let w3 := pn_handler_dispatch g event w2 in
         let w4 := pni_reactor_dispatch_post w3 event in
         exists log,
           process_turn p w
           = Continue (pn_event_type event)
               (pop_event
                  (upd_reactor (set_previous (pn_event_type event)) w4))
               log
           /\ invoked log = [(h, event); (g, event)]
           /\ (forall hl,
                  link_handler w event = Some hl ->
                  h = Some hl
                  /\ invoked log = [(Some hl, event); (g, event)])).
Proof.
  split; [|split; [|split; [|split; [|split]]]].
  - intros w event d h L. now rewrite pn_event_handler_unfold, L.
  - intros w event d h L S. now rewrite pn_event_handler_unfold, L, S.
  - intros w event d h L S C. now rewrite pn_event_handler_unfold, L, S, C.
  - intros w event d h L S C X. rewrite pn_event_handler_unfold, L, S, C.
    unfold context_handler.
    destruct X as [(t & -> & ->)|(s & -> & ->)]; reflexivity.
  - intros w event d L S C X. now rewrite pn_event_handler_unfold, L, S, C, X.
  - intros p w event P Y w1 h w2 g w3 w4.
    assert (R : pn_event_handler w1 event (handler (reactor w1)) = h).
    { unfold w1. rewrite pn_event_handler_pre, reactor_pre. reflexivity. }
    exists [ObsPre event; ObsDispatch h event; ObsDispatch g event;
            ObsPost event;
            ObsPop (pn_collector_peek
                      (collector
                         (reactor
                            (upd_reactor (set_previous (pn_event_type event))
                               w4))))].
    split; [|split].
    + unfold process_turn. rewrite P, Y.
      fold w1. rewrite R. fold w2. fold g. fold w3. fold w4. reflexivity.
    + reflexivity.
    + intros hl L.
      assert (Hh : h = Some hl).
      { unfold h. now rewrite pn_event_handler_unfold, L. }
      split; [exact Hh|]. simpl invoked. now rewrite Hh.
Qed.

(** *** The order of the calls made for one event *)

Lemma events_pre w event : events (pni_reactor_dispatch_pre w event) = events w.
Proof. unfold events. now rewrite reactor_pre. Qed.

Lemma events_post_append :
  handlers_append_only ->
  forall w event, exists l, events (pni_reactor_dispatch_post w event) = events w ++ l.
Proof.
  intros [_ Hf] w event. unfold pni_reactor_dispatch_post.
  destruct (pn_event_type event); try (exists []; now rewrite app_nil_r).
  apply Hf.
Qed.

Lemma peek_events w event q :
  events w = event :: q -> pn_collector_peek (collector (reactor w)) = Some event.
Proof. intros H. apply peek_some. now exists q. Qed.

(** C4.  For one event dispatched by [pn_reactor_process], the calls are
    made in this order, whatever the handlers do: the pre-dispatch hook, the
    resolved handler, the global handler, the post-dispatch hook, and only
    then the pop.  The event is obtained by peek; so, handlers only adding
    to the queue, it is still the head of the collector after each of these
    steps and it is the event the pop removes. *)
Theorem dispatch_order_for_one_event :
  forall p w event,
    pn_collector_peek (collector (reactor w)) = Some event ->
    yield (reactor w) = false ->
    let w1 := pni_reactor_dispatch_pre (upd_reactor (set_yield false) w) event in
    let h := pn_event_handler w event (handler (reactor w)) in
    let w2 := pn_handler_dispatch h event w1 in
    let g := global (reactor w2) in
    let w3 := pn_handler_dispatch g event w2 in
    let w4 := pni_reactor_dispatch_post w3 event in
    (exists w' popped,
        process_turn p w
        = Continue (pn_event_type event) w'
            [ObsPre event; ObsDispatch h event; ObsDispatch g event;
             ObsPost event; ObsPop popped]
        /\ popped = pn_collector_peek (collector (reactor w4))
        /\ events w' = tl (events w4)
        /\ previous (reactor w') = pn_event_type event)
    /\ (handlers_append_only ->
        pn_collector_peek (collector (reactor w1)) = Some event
        /\ pn_collector_peek (collector (reactor w2)) = Some event
        /\ pn_collector_peek (collector (reactor w3)) = Some event
        /\ pn_collector_peek (collector (reactor w4)) = Some event).
Proof.
  intros p w event P Y w1 h w2 g w3 w4.
  assert (R : pn_event_handler w1 event (handler (reactor w1)) = h).
  { unfold w1. rewrite pn_event_handler_pre, reactor_pre. reflexivity. }
  split.
  - eexists. eexists. split; [|split; [|split]].
    + unfold process_turn. rewrite P, Y.
      fold w1. rewrite R. fold w2. fold g. fold w3. fold w4. reflexivity.
    + reflexivity.
    + reflexivity.
    + reflexivity.
  - intros HA. pose proof HA as [Hd _].
    apply peek_some in P. destruct P as [q Hq].
    assert (E1 : events w1 = event :: q).
    { unfold w1. rewrite events_pre. exact Hq. }
    destruct (Hd h event w1) as [l2 E2]. fold w2 in E2. rewrite E1 in E2.
    destruct (Hd g event w2) as [l3 E3]. fold w3 in E3. rewrite E2 in E3.
    destruct (events_post_append HA w3 event) as [l4 E4]. fold w4 in E4.
    rewrite E3 in E4. simpl in E2, E3, E4.
    repeat split.
    + apply (peek_events w1 E1).
    + apply (peek_events w2 E2).
    + apply (peek_events w3 E3).
    + apply (peek_events w4 E4).
Qed.

(** *** Where [PN_REACTOR_QUIESCED] can appear *)

Lemma dispatched_app log l : dispatched (log ++ l) = dispatched log ++ dispatched l.
Proof.
  induction log as [|o log IH]; simpl; auto.
  destruct o; simpl; auto. now rewrite IH.
Qed.

Lemma dispatched_types_app log l :
  dispatched_types (log ++ l) = dispatched_types log ++ dispatched_types l.
Proof. unfold dispatched_types. now rewrite dispatched_app, map_app. Qed.

Lemma returned_app log l : returned (log ++ l) = returned log ++ returned l.
Proof.
  induction log as [|o log IH]; simpl; auto.
  destruct o; simpl; auto. now rewrite IH.
Qed.

Lemma last_cons_default {A : Type} (l : list A) (x d : A) :
  last (x :: l) d = last l x.
Proof.
  revert x d. induction l as [|y l IH]; intros x d; auto.
  change (last (x :: y :: l) d) with (last (y :: l) d).
  now rewrite !IH.
Qed.

Lemma last_nonempty_default {A : Type} (l : list A) (d d' : A) :
  l <> [] -> last l d = last l d'.
Proof.
  destruct l as [|x l]; [congruence|]. intros _.
  now rewrite !last_cons_default.
Qed.

Lemma no_pair_snoc a b l x d :
  l <> [] ->
  no_pair a b (l ++ [x])
  = no_pair a b l && negb (event_type_eqb (last l d) a && event_type_eqb x b).
Proof.
  induction l as [|y l IH]; [congruence|]. intros _.
  destruct l as [|z l].
  - simpl. now rewrite andb_true_r.
  - change (no_pair a b ((y :: z :: l) ++ [x]))
      with (negb (event_type_eqb y a && event_type_eqb z b)
            && no_pair a b ((z :: l) ++ [x])).
    rewrite IH by discriminate.
    change (last (y :: z :: l) d) with (last (z :: l) d).
    change (no_pair a b (y :: z :: l))
      with (negb (event_type_eqb y a && event_type_eqb z b)
            && no_pair a b (z :: l)).
    now rewrite andb_assoc.
Qed.

Lemma reactor_upd_sel sel f w : reactor (upd_sel sel f w) = reactor w.
Proof. reflexivity. Qed.

(** [pn_reactor_update] adds at most one event, never a quiesced one, and
    does not touch [previous]. *)
Lemma update_events sel w :
  exists l, events (pn_reactor_update sel w) = events w ++ l
            /\ existsb is_quiesced l = false
            /\ previous (reactor (pn_reactor_update sel w)) = previous (reactor w).
Proof.
  unfold pn_reactor_update.
  destruct (nth_error (sels w) sel) as [s|];
    [|exists []; now rewrite app_nil_r].
  destruct (negb _); [|exists []; now rewrite app_nil_r].
  destruct (sel_terminal s).
  - rewrite events_reactor_put. simpl.
    destruct (freed (collector (reactor w))).
    + exists []. now rewrite app_nil_r.
    + eexists. split; [reflexivity|]. split; reflexivity.
  - rewrite events_reactor_put.
    destruct (freed (collector (reactor w))).
    + exists []. now rewrite app_nil_r.
    + eexists. split; [reflexivity|]. split; reflexivity.
Qed.

Lemma events_post_quiet :
  handlers_never_quiesce ->
  forall w event, exists l,
      events (pni_reactor_dispatch_post w event) = events w ++ l
      /\ existsb is_quiesced l = false.
Proof.
  intros [_ Hf] w event. unfold pni_reactor_dispatch_post.
  destruct (pn_event_type event); try (exists []; now rewrite app_nil_r).
  apply Hf.
Qed.

(** What one dispatch turn does to the queue. *)
Lemma process_turn_dispatch :
  handlers_never_quiesce ->
  forall p w event q,
    events w = event :: q ->
    yield (reactor w) = false ->
    exists w' log l,
      process_turn p w = Continue (pn_event_type event) w' log
      /\ dispatched log = [event]
      /\ events w' = q ++ l
      /\ existsb is_quiesced l = false
      /\ previous (reactor w') = pn_event_type event.
Proof.
  intros HQ p w event q Hq Y.
  pose proof HQ as [Hd _].
  unfold process_turn. rewrite (peek_events w Hq), Y.
  set (w1 := pni_reactor_dispatch_pre (upd_reactor (set_yield false) w) event).
  set (h := pn_event_handler w1 event (handler (reactor w1))).
  set (w2 := pn_handler_dispatch h event w1).
  set (g := global (reactor w2)).
  set (w3 := pn_handler_dispatch g event w2).
  set (w4 := pni_reactor_dispatch_post w3 event).
  assert (E1 : events w1 = event :: q).
  { unfold w1. rewrite events_pre. exact Hq. }
  destruct (Hd h event w1) as (l2 & E2 & Q2). fold w2 in E2.
  destruct (Hd g event w2) as (l3 & E3 & Q3). fold w3 in E3.
  destruct (events_post_quiet HQ w3 event) as (l4 & E4 & Q4). fold w4 in E4.
  eexists. eexists. exists (l2 ++ l3 ++ l4).
  split; [reflexivity|]. split; [reflexivity|]. split; [|split].
  - change (events (pop_event (upd_reactor (set_previous (pn_event_type event)) w4)))
      with (tl (events w4)).
    rewrite E4, E3, E2, E1. simpl. now rewrite <- !app_assoc.
  - rewrite !existsb_app, Q2, Q3, Q4. reflexivity.
  - reflexivity.
Qed.

(** The invariant of the loop.  [ds] is what the call has dispatched so
    far and [p0] the value of [reactor->previous] when the call began. *)
Lemma process_loop_quiesced :
  handlers_never_quiesce ->
  forall p0 fuel p w log b w' log',
    process_loop fuel p w log = Some (b, w', log') ->
    p = last (dispatched_types log) PN_EVENT_NONE ->
    previous (reactor w) = last (dispatched_types log) p0 ->
    quiesced_not_adjacent (dispatched_types log) = true ->
    quiesced_not_after_final (p0 :: dispatched_types log) = true ->
    existsb is_quiesced (tl (events w)) = false ->
    (previous (reactor w) = PN_REACTOR_FINAL \/ p = PN_REACTOR_QUIESCED ->
     existsb is_quiesced (events w) = false) ->
    quiesced_not_adjacent (dispatched_types log') = true
    /\ quiesced_not_after_final (p0 :: dispatched_types log') = true
    /\ previous (reactor w') = last (dispatched_types log') p0
    /\ existsb is_quiesced (tl (events w')) = false
    /\ (previous (reactor w') = PN_REACTOR_FINAL ->
        existsb is_quiesced (events w') = false).
Proof.
  intros HQ p0 fuel.
  induction fuel as [|fuel IH]; intros p w log b w' log'; simpl; [discriminate|].
  intros H Hp Hprev HA HF HT HH.
  destruct (events w) as [|event q] eqn:Hq.
  - (* empty queue *)
    unfold process_turn in H.
    pose proof Hq as Hpeek. apply peek_none in Hpeek. rewrite Hpeek in H.
    destruct (pni_reactor_more w).
    + destruct (negb (event_type_eqb p PN_REACTOR_QUIESCED)
                && negb (event_type_eqb (previous (reactor w)) PN_REACTOR_FINAL))
        eqn:G.
      * apply andb_true_iff in G. destruct G as [G1 G2].
        apply negb_true_iff, event_type_eqb_neq in G1.
        apply negb_true_iff, event_type_eqb_neq in G2.
        rewrite app_nil_r in H.
        apply IH in H; auto.
        -- rewrite events_reactor_put, Hq.
           destruct (freed (collector (reactor w))); reflexivity.
        -- intros [X|X]; contradiction.
      * injection H as <- <- <-.
        rewrite dispatched_types_app, app_nil_r.
        rewrite Hq. repeat split; auto.
    + destruct (selectable (reactor w)) as [sel|].
      * rewrite app_nil_r in H.
        destruct (update_events sel (pn_selectable_terminate sel w))
          as (l & El & Ql & Pl).
        change (events (pn_selectable_terminate sel w)) with (events w) in El.
        change (previous (reactor (pn_selectable_terminate sel w)))
          with (previous (reactor w)) in Pl.
        rewrite Hq in El. simpl in El.
        set (w1 := pn_reactor_update sel (pn_selectable_terminate sel w)) in *.
        assert (E1 : events (upd_reactor (set_selectable None) w1) = l)
          by exact El.
        assert (P1 : previous (reactor (upd_reactor (set_selectable None) w1))
                     = previous (reactor w)) by exact Pl.
        eapply IH; [exact H|exact Hp|now rewrite P1|exact HA|exact HF| |].
        -- rewrite E1. destruct l as [|x l]; auto.
           simpl in Ql. apply orb_false_iff in Ql. apply Ql.
        -- intros _. now rewrite E1.
      * injection H as <- <- <-.
        rewrite dispatched_types_app, app_nil_r.
        rewrite Hq. repeat split; auto.
  - (* an event at the head *)
    destruct (yield (reactor w)) eqn:Y.
    + unfold process_turn in H.
      rewrite (peek_events w Hq), Y in H.
      injection H as <- <- <-.
      rewrite dispatched_types_app, app_nil_r.
      change (events (upd_reactor (set_yield false) w)) with (events w).
      change (previous (reactor (upd_reactor (set_yield false) w)))
        with (previous (reactor w)).
      rewrite Hq.
      split; [exact HA|]. split; [exact HF|]. split; [exact Hprev|].
      split; [exact HT|]. intros X. apply HH. now left.
    + destruct (process_turn_dispatch HQ p w Hq Y)
        as (w1 & l1 & la & T & D & E1 & Q1 & P1).
      rewrite T in H. simpl in HT.
      assert (NQ : existsb is_quiesced (events w1) = false).
      { rewrite E1, existsb_app, HT, Q1. reflexivity. }
      assert (DT : dispatched_types (log ++ l1)
                   = dispatched_types log ++ [pn_event_type event]).
      { rewrite dispatched_types_app. unfold dispatched_types at 2.
        now rewrite D. }
      assert (HE : is_quiesced event = true ->
                   previous (reactor w) <> PN_REACTOR_FINAL
                   /\ p <> PN_REACTOR_QUIESCED).
      { intros QE. split; intros X.
        - assert (C : existsb is_quiesced (event :: q) = false)
            by (apply HH; now left).
          simpl in C. rewrite QE in C. discriminate.
        - assert (C : existsb is_quiesced (event :: q) = false)
            by (apply HH; now right).
          simpl in C. rewrite QE in C. discriminate. }
      apply IH in H; auto.
      * rewrite DT. now rewrite last_last.
      * rewrite DT, last_last. exact P1.
      * rewrite DT. unfold quiesced_not_adjacent in *.
        destruct (dispatched_types log) as [|x ds] eqn:Dl; [reflexivity|].
        rewrite (no_pair_snoc _ _ (l := x :: ds) _ PN_EVENT_NONE)
          by discriminate.
        rewrite HA. simpl andb.
        apply negb_true_iff.
        destruct (event_type_eqb (pn_event_type event) PN_REACTOR_QUIESCED)
          eqn:QE; [|apply andb_false_r].
        destruct (HE QE) as [_ N].
        rewrite andb_true_r. apply event_type_eqb_neq.
        rewrite Hp in N. exact N.
      * rewrite DT. unfold quiesced_not_after_final in *.
        change (p0 :: dispatched_types log ++ [pn_event_type event])
          with ((p0 :: dispatched_types log) ++ [pn_event_type event]).
        rewrite (no_pair_snoc _ _ (l := p0 :: dispatched_types log) _ p0)
          by discriminate.
        rewrite HF. simpl andb.
        apply negb_true_iff.
        destruct (event_type_eqb (pn_event_type event) PN_REACTOR_QUIESCED)
          eqn:QE; [|apply andb_false_r].
        destruct (HE QE) as [N _].
        rewrite andb_true_r. apply event_type_eqb_neq.
        rewrite Hprev in N. rewrite <- (last_cons_default _ p0 p0) in N. exact N.
      * destruct (events w1); auto.
        simpl in NQ. apply orb_false_iff in NQ. apply NQ.
Qed.

(** *** The life of a selectable *)

Lemma events_of_selectable_app s l l' :
  events_of_selectable s (l ++ l')
  = events_of_selectable s l ++ events_of_selectable s l'.
Proof. unfold events_of_selectable. now rewrite filter_app, map_app. Qed.

Lemma events_of_selectable_one s o t :
  events_of_selectable s [mkEvent o t]
  = if pn_object_eq_dec o (ObjSelectable s) then [t] else [].
Proof.
  unfold events_of_selectable. simpl.
  destruct (pn_object_eq_dec o (ObjSelectable s)); reflexivity.
Qed.

Lemma quiet_refl s w : quiet_for s w w.
Proof.
  intros L. repeat split; try apply L; auto.
  exists []. now rewrite app_nil_r.
Qed.

Lemma quiet_trans s w1 w2 w3 :
  quiet_for s w1 w2 -> quiet_for s w2 w3 -> quiet_for s w1 w3.
Proof.
  intros H12 H23 L1.
  destruct (H12 L1) as (L2 & M12 & T12 & l12 & E12 & F12).
  destruct (H23 L2) as (L3 & M23 & T23 & l23 & E23 & F23).
  split; [exact L3|]. split; [congruence|]. split; [auto|].
  exists (l12 ++ l23). split.
  - rewrite E23, E12. now rewrite app_assoc.
  - now rewrite events_of_selectable_app, F12, F23.
Qed.

Lemma quiet_then_step s w1 w2 w3 :
  quiet_for s w1 w2 -> step_for s w2 w3 -> step_for s w1 w3.
Proof.
  intros H12 H23 L1 I1.
  destruct (H12 L1) as (L2 & M12 & T12 & l12 & E12 & F12).
  assert (I2 : selectable_terminated w2 s = true ->
               pn_selectable_is_terminal w2 s = true).
  { rewrite M12. auto. }
  destruct (H23 L2 I2) as (L3 & I3 & l23 & E23 & C).
  split; [exact L3|]. split; [exact I3|].
  exists (l12 ++ l23). split.
  - rewrite E23, E12. now rewrite app_assoc.
  - rewrite events_of_selectable_app, F12. simpl.
    rewrite <- M12. exact C.
Qed.

Lemma quiet_is_step s w w' : quiet_for s w w' -> step_for s w w'.
Proof.
  intros H L I.
  destruct (H L) as (L' & M & T & l & E & F).
  split; [exact L'|]. split.
  - rewrite M. auto.
  - exists l. split; [exact E|]. left. auto.
Qed.

(** Changing a selectable in a way that keeps its attachments and does not
    clear its terminal bit. *)
Lemma quiet_upd_sel s x f w :
  (forall y, sel_attachments (f y) = sel_attachments y) ->
  (forall y, sel_terminal y = true -> sel_terminal (f y) = true) ->
  quiet_for s w (upd_sel x f w).
Proof.
  intros Ha Ht [L F].
  unfold live, selectable_terminated, pn_selectable_attachments,
    pn_selectable_is_terminal. simpl.
  rewrite list_update_length.
  split; [auto|].
  destruct (Nat.eq_dec x s) as [->|N].
  - rewrite nth_error_list_update_same.
    destruct (nth_error (sels w) s) as [y|]; simpl.
    + rewrite Ha. repeat split; auto.
      exists []. now rewrite app_nil_r.
    + repeat split; auto. exists []. now rewrite app_nil_r.
  - rewrite nth_error_list_update_other by exact N.
    repeat split; auto. exists []. now rewrite app_nil_r.
Qed.

(** Changing the reactor struct without touching the collector. *)
Lemma quiet_upd_reactor s g w :
  (forall r, collector (g r) = collector r) ->
  quiet_for s w (upd_reactor g w).
Proof.
  intros Hc [L F].
  unfold live, events. simpl. rewrite Hc.
  repeat split; auto. exists []. now rewrite app_nil_r.
Qed.

Lemma quiet_set_tasks s v w : quiet_for s w (set_tasks v w).
Proof.
  intros [L F]. unfold live. simpl.
  repeat split; auto. exists []. now rewrite app_nil_r.
Qed.

(** Publishing an event about something else. *)
Lemma quiet_put s o t w :
  o <> ObjSelectable s -> quiet_for s w (reactor_put o t w).
Proof.
  intros N [L F]. unfold live.
  rewrite freed_reactor_put, events_reactor_put, F.
  split; [auto|]. split; [reflexivity|]. split; [auto|].
  eexists. split; [reflexivity|].
  rewrite events_of_selectable_one.
  destruct (pn_object_eq_dec o (ObjSelectable s)); congruence.
Qed.

Lemma quiet_new_selectable s w :
  quiet_for s w (set_sels (sels w ++ [pn_selectable]) w).
Proof.
  intros [L F].
  unfold live, selectable_terminated, pn_selectable_attachments,
    pn_selectable_is_terminal. simpl.
  rewrite length_app, nth_error_app1 by exact L. simpl.
  repeat split; auto; try lia. exists []. now rewrite app_nil_r.
Qed.

(** Changing another selectable in any way. *)
Lemma quiet_upd_sel_other s x f w : x <> s -> quiet_for s w (upd_sel x f w).
Proof.
  intros N [L F].
  unfold live, selectable_terminated, pn_selectable_attachments,
    pn_selectable_is_terminal. simpl.
  rewrite list_update_length, nth_error_list_update_other by exact N.
  repeat split; auto. exists []. now rewrite app_nil_r.
Qed.

(** Peels the outermost operation off the target of a quiet step. *)
Ltac quiet_peel :=
  match goal with
  | |- quiet_for ?s ?w ?w => apply quiet_refl
  | |- quiet_for ?s ?w (upd_sel ?x ?f ?X) =>
      apply (quiet_trans (w2 := X));
      [|first [apply quiet_upd_sel_other; assumption
              |apply quiet_upd_sel; auto]]
  | |- quiet_for ?s ?w (upd_reactor ?g ?X) =>
      apply (quiet_trans (w2 := X)); [|apply quiet_upd_reactor; auto]
  | |- quiet_for ?s ?w (set_tasks ?v ?X) =>
      apply (quiet_trans (w2 := X)); [|apply quiet_set_tasks]
  | |- quiet_for ?s ?w (reactor_put ?o ?t ?X) =>
      apply (quiet_trans (w2 := X)); [|apply quiet_put; auto; try discriminate]
  | |- quiet_for ?s ?w (set_sels (sels ?X ++ [pn_selectable]) ?X) =>
      apply (quiet_trans (w2 := X)); [|apply quiet_new_selectable]
  end.

Lemma quiet_selectable s w : quiet_for s w (fst (pn_reactor_selectable w)).
Proof.
  intros L.
  assert (N : ObjSelectable (length (sels w)) <> ObjSelectable s).
  { destruct L as [L _]. intros [= E]. lia. }
  revert L. unfold pn_reactor_selectable. cbv zeta. unfold fst.
  match goal with |- _ -> live _ ?w' /\ _ => change (quiet_for s w w') end.
  repeat quiet_peel.
Qed.

Lemma quiet_tick s now0 w : quiet_for s w (pn_timer_tick now0 w).
Proof.
  unfold pn_timer_tick. cbv zeta.
  generalize (timer_matured now0 (timer (reactor w))).
  generalize (timer_pending now0 (timer (reactor w))).
  intros pending matured.
  assert (Q0 : quiet_for s w (upd_reactor (set_timer pending) w))
    by (repeat quiet_peel).
  revert Q0. generalize (upd_reactor (set_timer pending) w).
  induction matured as [|k ks IH]; intros w1 Q1; simpl; auto.
  apply IH. quiet_peel. exact Q1.
Qed.

Lemma quiet_release s x w : quiet_for s w (pni_selectable_release x w).
Proof.
  unfold pni_selectable_release.
  destruct (obind (nth_error (sels w) x) sel_context) as [[]|];
    try apply quiet_refl.
  destruct (pn_list_remove (children (reactor w)) x) as [rest found].
  destruct found; repeat quiet_peel.
Qed.

(** [pn_reactor_update] on any selectable is a step for [s]. *)
Lemma update_step s x w : step_for s w (pn_reactor_update x w).
Proof.
  unfold pn_reactor_update.
  destruct (nth_error (sels w) x) as [y|] eqn:Hx;
    [|apply quiet_is_step, quiet_refl].
  destruct (pn_record_has (sel_attachments y) PNI_TERMINATED) eqn:M; simpl negb;
    cbv iota; [apply quiet_is_step, quiet_refl|].
  destruct (Nat.eq_dec x s) as [->|N].
  - (* an update of [s] itself *)
    intros [L F] I.
    assert (M0 : selectable_terminated w s = false).
    { unfold selectable_terminated, pn_selectable_attachments.
      now rewrite Hx. }
    destruct (sel_terminal y) eqn:T.
    + split; [|split].
      * unfold live. rewrite freed_reactor_put. simpl.
        rewrite list_update_length. auto.
      * intros _. unfold pn_selectable_is_terminal. simpl.
        rewrite nth_error_list_update_same, Hx. exact T.
      * rewrite events_reactor_put. simpl. rewrite F.
        eexists. split; [reflexivity|]. right. right.
        rewrite events_of_selectable_one.
        destruct (pn_object_eq_dec (ObjSelectable s) (ObjSelectable s));
          [|congruence].
        repeat split; auto.
        unfold selectable_terminated, pn_selectable_attachments. simpl.
        rewrite nth_error_list_update_same, Hx. simpl.
        apply has_def_same.
    + split; [|split].
      * unfold live. rewrite freed_reactor_put. auto.
      * intros X.
        change (selectable_terminated w s = true) in X. congruence.
      * rewrite events_reactor_put, F.
        eexists. split; [reflexivity|]. right. left.
        rewrite events_of_selectable_one.
        destruct (pn_object_eq_dec (ObjSelectable s) (ObjSelectable s));
          [|congruence].
        repeat split; auto.
  - (* an update of another selectable *)
    assert (N' : ObjSelectable x <> ObjSelectable s) by congruence.
    apply quiet_is_step.
    destruct (sel_terminal y); repeat quiet_peel.
Qed.

Lemma exec_step s c w : step_for s w (exec c w).
Proof.
  destruct c as [|x|x|x d|delay h|x| | |x]; simpl.
  - apply quiet_is_step, quiet_selectable.
  - apply update_step.
  - apply quiet_is_step. unfold pn_selectable_terminate. quiet_peel.
    apply quiet_refl.
  - apply quiet_is_step. unfold pn_selectable_set_deadline. quiet_peel.
    apply quiet_refl.
  - unfold pn_reactor_schedule, pn_timer_schedule, upd_task. cbv zeta iota.
    simpl selectable.
    destruct (selectable (reactor w)) as [sel|]; unfold fst.
    + eapply quiet_then_step; [|apply update_step].
      unfold pn_selectable_set_deadline. repeat quiet_peel.
    + apply quiet_is_step. repeat quiet_peel.
  - unfold pni_timer_expired.
    destruct (pni_reactor w x); [|apply quiet_is_step, quiet_refl].
    cbv zeta.
    eapply quiet_then_step; [|apply update_step].
    unfold pn_selectable_set_deadline. quiet_peel. apply quiet_tick.
  - apply quiet_is_step. unfold pn_reactor_yield. repeat quiet_peel.
  - apply quiet_is_step. unfold pn_reactor_mark. repeat quiet_peel.
  - apply quiet_is_step, quiet_release.
Qed.

Lemma repeat_snoc {A : Type} (x : A) n : repeat x n ++ [x] = repeat x (S n).
Proof. induction n as [|n IH]; simpl; auto. now rewrite IH. Qed.

Lemma lifecycle_so_far_ok evs m :
  lifecycle_so_far evs m -> selectable_lifecycle evs = true.
Proof.
  intros [n ->]. simpl.
  induction n as [|n IH]; simpl; auto.
  destruct m; reflexivity.
Qed.

Lemma nth_error_snoc {A : Type} (l : list A) x :
  nth_error (l ++ [x]) (length l) = Some x.
Proof. rewrite nth_error_app2, Nat.sub_diag by lia. reflexivity. Qed.

(** What registration leaves behind. *)
Lemma selectable_registered w :
  freed (collector (reactor w)) = false ->
  snd (pn_reactor_selectable w) = length (sels w)
  /\ events (fst (pn_reactor_selectable w))
     = events w ++ [mkEvent (ObjSelectable (length (sels w))) PN_SELECTABLE_INIT]
  /\ live (length (sels w)) (fst (pn_reactor_selectable w))
  /\ selectable_terminated (fst (pn_reactor_selectable w)) (length (sels w))
     = false
  /\ pn_selectable_is_terminal (fst (pn_reactor_selectable w)) (length (sels w))
     = false.
Proof.
  intros F. unfold pn_reactor_selectable. cbv zeta. unfold fst, snd.
  split; [reflexivity|]. split; [|split; [|split]].
  - unfold events. simpl. rewrite put_queue. simpl. now rewrite F.
  - unfold live. simpl. rewrite put_freed. simpl.
    rewrite !list_update_length, length_app. simpl. split; [lia|exact F].
  - unfold selectable_terminated, pn_selectable_attachments. simpl.
    rewrite !nth_error_list_update_same, nth_error_snoc. reflexivity.
  - unfold pn_selectable_is_terminal. simpl.
    rewrite !nth_error_list_update_same, nth_error_snoc. reflexivity.
Qed.

(** The three cases of [pn_reactor_update] on a live selectable. *)
Lemma update_cases s w :
  live s w ->
  (selectable_terminated w s = true -> pn_reactor_update s w = w)
  /\ (selectable_terminated w s = false ->
      pn_selectable_is_terminal w s = false ->
      events (pn_reactor_update s w)
      = events w ++ [mkEvent (ObjSelectable s) PN_SELECTABLE_UPDATED]
      /\ selectable_terminated (pn_reactor_update s w) s = false)
  /\ (selectable_terminated w s = false ->
      pn_selectable_is_terminal w s = true ->
      events (pn_reactor_update s w)
      = events w ++ [mkEvent (ObjSelectable s) PN_SELECTABLE_FINAL]
      /\ selectable_terminated (pn_reactor_update s w) s = true).
Proof.
  intros [L F].
  unfold selectable_terminated, pn_selectable_attachments,
    pn_selectable_is_terminal, pn_reactor_update.
  destruct (nth_error (sels w) s) as [y|] eqn:Hs.
  2:{ apply nth_error_None in Hs. lia. }
  split; [|split].
  - intros ->. reflexivity.
  - intros M T. rewrite M, T. simpl negb. cbv iota.
    rewrite events_reactor_put, F. split; [reflexivity|].
    change (sels (reactor_put (ObjSelectable s) PN_SELECTABLE_UPDATED w))
      with (sels w).
    rewrite Hs. exact M.
  - intros -> ->. simpl negb. cbv iota.
    rewrite events_reactor_put. simpl. rewrite F. split; [reflexivity|].
    rewrite nth_error_list_update_same, Hs. simpl.
    apply has_def_same.
Qed.

(** *** The life of a selectable across client calls and the loop *)

Lemma keeps_refl s w : keeps_lifecycle s w w.
Proof.
  intros evs K. exists []. split; [now rewrite app_nil_r|].
  change (events_of_selectable s []) with (@nil pn_event_type_t).
  now rewrite app_nil_r.
Qed.

Lemma keeps_trans s w1 w2 w3 :
  keeps_lifecycle s w1 w2 -> keeps_lifecycle s w2 w3 -> keeps_lifecycle s w1 w3.
Proof.
  intros H12 H23 evs K.
  destruct (H12 evs K) as (l12 & E12 & K2).
  destruct (H23 _ K2) as (l23 & E23 & K3).
  exists (l12 ++ l23). split.
  - rewrite E23, E12. now rewrite app_assoc.
  - now rewrite events_of_selectable_app, app_assoc.
Qed.

Lemma step_keeps s w w' : step_for s w w' -> keeps_lifecycle s w w'.
Proof.
  intros H evs (L & I & K).
  destruct (H L I) as (L1 & I1 & l1 & E1 & C).
  exists l1. split; [exact E1|].
  split; [exact L1|]. split; [exact I1|].
  destruct K as [n K].
  destruct C as [(A & B)|[(A & B & B')|(A & B & B')]]; rewrite A.
  - rewrite app_nil_r, B. now exists n.
  - rewrite B in K. rewrite B'. exists (S n). subst evs.
    rewrite app_nil_r. simpl. rewrite app_nil_r.
    now rewrite repeat_snoc.
  - rewrite B in K. rewrite B'. exists n. subst evs.
    rewrite app_nil_r. reflexivity.
Qed.

Lemma quiet_keeps s w w' : quiet_for s w w' -> keeps_lifecycle s w w'.
Proof. intros H. now apply step_keeps, quiet_is_step. Qed.

Lemma exec_all_keeps s ops : forall w, keeps_lifecycle s w (exec_all ops w).
Proof.
  induction ops as [|c ops IH]; intros w; [apply keeps_refl|].
  change (exec_all (c :: ops) w) with (exec_all ops (exec c w)).
  apply (keeps_trans (w2 := exec c w)); [|apply IH].
  apply step_keeps, exec_step.
Qed.

(** Handlers that act on the reactor through client calls keep it. *)
Lemma clients_keep_lifecycle :
  (forall h e w, exists ops, pn_handler_dispatch h e w = exec_all ops w) ->
  (forall e w, exists ops, pni_handle_final e w = exec_all ops w) ->
  handlers_keep_lifecycle.
Proof.
  intros Hd Hf. split.
  - intros s h e w. destruct (Hd h e w) as [ops ->]. apply exec_all_keeps.
  - intros s e w. destruct (Hf e w) as [ops ->]. apply exec_all_keeps.
Qed.

Lemma quiet_pre s w e : quiet_for s w (pni_reactor_dispatch_pre w e).
Proof.
  unfold pni_reactor_dispatch_pre.
  destruct (pn_event_type e); try apply quiet_refl.
  destruct (pn_event_connection w e) as [c|]; [|apply quiet_refl].
  intros [L F].
  split; [split; [exact L|exact F]|].
  split; [reflexivity|]. split; [auto|].
  exists []. split; [now rewrite app_nil_r|reflexivity].
Qed.

(** One turn of the loop.  A turn that dispatches pops the event it has
    dispatched, so what counts is the events dispatched together with the
    events still queued. *)
Lemma process_turn_lifecycle :
  handlers_keep_lifecycle ->
  forall s p w evs,
    lifecycle_invariant s evs w ->
    match process_turn p w with
    | Continue _ w1 l1 =>
        exists la,
          dispatched l1 ++ events w1 = events w ++ la
          /\ lifecycle_invariant s (evs ++ events_of_selectable s la) w1
    | Return _ w1 =>
        events w1 = events w /\ lifecycle_invariant s evs w1
    end.
Proof.
  intros [Hd Hf] s p w evs K.
  unfold process_turn.
  destruct (pn_collector_peek (collector (reactor w))) as [event|] eqn:P.
  - destruct (yield (reactor w)) eqn:Y.
    + split; [reflexivity|]. exact K.
    + apply peek_some in P. destruct P as [q Hq].
      change (queue (collector (reactor w))) with (events w) in Hq.
      set (w0 := upd_reactor (set_yield false) w).
      set (w1 := pni_reactor_dispatch_pre w0 event).
      set (h := pn_event_handler w1 event (handler (reactor w1))).
      set (w2 := pn_handler_dispatch h event w1).
      set (g := global (reactor w2)).
      set (w3 := pn_handler_dispatch g event w2).
      set (w4 := pni_reactor_dispatch_post w3 event).
      set (w5 := upd_reactor (set_previous (pn_event_type event)) w4).
      assert (Q : keeps_lifecycle s w w5).
      { apply (keeps_trans (w2 := w4));
          [|apply quiet_keeps, quiet_upd_reactor; auto].
        apply (keeps_trans (w2 := w3)).
        2:{ unfold w4, pni_reactor_dispatch_post.
            destruct (pn_event_type event); try apply keeps_refl.
            apply Hf. }
        apply (keeps_trans (w2 := w2)); [|apply Hd].
        apply (keeps_trans (w2 := w1)); [|apply Hd].
        apply (keeps_trans (w2 := w0)).
        - apply quiet_keeps, quiet_upd_reactor; auto.
        - apply quiet_keeps, quiet_pre. }
      destruct (Q evs K) as (l & E5 & K5).
      exists l. split; [|exact K5].
      change (events (pop_event w5)) with (tl (events w5)).
      rewrite E5, Hq. reflexivity.
  - destruct (pni_reactor_more w).
    + destruct (negb _ && negb _).
      * assert (Q : keeps_lifecycle s w
                      (reactor_put ObjReactor PN_REACTOR_QUIESCED w)).
        { apply quiet_keeps, quiet_put. discriminate. }
        destruct (Q evs K) as (l & E1 & K1).
        exists l. split; [exact E1|exact K1].
      * split; [reflexivity|exact K].
    + destruct (selectable (reactor w)) as [sel|].
      * assert (Q : keeps_lifecycle s w
                      (upd_reactor (set_selectable None)
                         (pn_reactor_update sel
                            (pn_selectable_terminate sel w)))).
        { apply (keeps_trans
                   (w2 := pn_reactor_update sel
                            (pn_selectable_terminate sel w)));
            [|apply quiet_keeps, quiet_upd_reactor; auto].
          apply (keeps_trans (w2 := pn_selectable_terminate sel w)).
          - apply step_keeps. exact (@exec_step s (CallTerminate sel) w).
          - apply step_keeps, update_step. }
        destruct (Q evs K) as (l & E1 & K1).
        exists l. split; [exact E1|exact K1].
      * split; [reflexivity|exact K].
Qed.

Lemma process_loop_lifecycle :
  handlers_keep_lifecycle ->
  forall s fuel p w log b w' log' evs,
    process_loop fuel p w log = Some (b, w', log') ->
    lifecycle_invariant s evs w ->
    exists added,
      dispatched log' ++ events w' = dispatched log ++ events w ++ added
      /\ lifecycle_invariant s (evs ++ events_of_selectable s added) w'.
Proof.
  intros HK s fuel.
  induction fuel as [|fuel IH]; intros p w log b w' log' evs; simpl;
    [discriminate|].
  intros H K.
  pose proof (process_turn_lifecycle HK p K) as T.
  destruct (process_turn p w) as [p1 w1 l1|b1 w1].
  - destruct T as (la & E1 & K1).
    destruct (IH _ _ _ _ _ _ _ H K1) as (added & E2 & K2).
    exists (la ++ added). split.
    + rewrite E2, dispatched_app, <- (app_assoc (dispatched log)). f_equal.
      rewrite (app_assoc (dispatched l1)), E1. now rewrite <- app_assoc.
    + rewrite events_of_selectable_app, app_assoc. exact K2.
  - injection H as <- <- <-. destruct T as (E1 & K1).
    exists []. split.
    + rewrite dispatched_app, E1. simpl. now rewrite !app_nil_r.
    + change (events_of_selectable s []) with (@nil pn_event_type_t).
      rewrite app_nil_r. exact K1.
Qed.

Lemma process_lifecycle :
  handlers_keep_lifecycle ->
  forall s fuel w b w' log evs,
    pn_reactor_process fuel w = Some (b, w', log) ->
    lifecycle_invariant s evs w ->
    exists added,
      dispatched log ++ events w' = events w ++ added
      /\ lifecycle_invariant s (evs ++ events_of_selectable s added) w'.
Proof.
  intros HK s fuel w b w' log evs H K.
  unfold pn_reactor_process in H.
  assert (K' : lifecycle_invariant s evs (pn_reactor_mark w)) by exact K.
  pose proof (process_loop_lifecycle HK) as P.
  destruct (P s fuel _ _ _ _ _ _ evs H K') as (added & E & K1).
  exists added. split; [exact E|exact K1].
Qed.

(** *** A released collector *)

Lemma update_released x w :
  freed (collector (reactor w)) = true ->
  collector (reactor (pn_reactor_update x w)) = collector (reactor w).
Proof.
  intros F. unfold pn_reactor_update.
  destruct (nth_error (sels w) x) as [y|]; [|reflexivity].
  destruct (negb _); [|reflexivity].
  destruct (sel_terminal y); rewrite reactor_put_released by exact F;
    reflexivity.
Qed.

Lemma tick_released now0 w :
  freed (collector (reactor w)) = true ->
  collector (reactor (pn_timer_tick now0 w)) = collector (reactor w).
Proof.
  intros F. unfold pn_timer_tick. cbv zeta.
  generalize (timer_matured now0 (timer (reactor w))).
  set (w0 := upd_reactor
               (set_timer (timer_pending now0 (timer (reactor w)))) w).
  assert (F0 : freed (collector (reactor w0)) = true) by exact F.
  change (collector (reactor w)) with (collector (reactor w0)).
  revert F0. generalize w0.
  intros w1 F1 ks. revert w1 F1.
  induction ks as [|k ks IH]; intros w1 F1; simpl; [reflexivity|].
  rewrite reactor_put_released by exact F1. now apply IH.
Qed.

Lemma exec_released c w :
  freed (collector (reactor w)) = true ->
  collector (reactor (exec c w)) = collector (reactor w).
Proof.
  intros F. destruct c as [|x|x|x d|delay h|x| | |x]; simpl.
  - unfold pn_reactor_selectable. simpl. now apply put_released.
  - now apply update_released.
  - reflexivity.
  - reflexivity.
  - unfold pn_reactor_schedule, pn_timer_schedule, upd_task. cbv zeta iota.
    simpl selectable.
    destruct (selectable (reactor w)) as [sel|]; unfold fst; [|reflexivity].
    rewrite update_released; [reflexivity|exact F].
  - unfold pni_timer_expired.
    destruct (pni_reactor w x); [|reflexivity]. cbv zeta.
    rewrite update_released.
    + change (collector (reactor (pn_timer_tick (now (reactor w)) w))
              = collector (reactor w)).
      now apply tick_released.
    + change (freed (collector (reactor (pn_timer_tick (now (reactor w)) w)))
              = true).
      now rewrite tick_released.
  - reflexivity.
  - reflexivity.
  - unfold pni_selectable_release.
    destruct (obind (nth_error (sels w) x) sel_context) as [[]|];
      try reflexivity.
    destruct (pn_list_remove (children (reactor w)) x) as [rest found].
    destruct found; reflexivity.
Qed.

Lemma exec_all_released ops :
  forall w,
    freed (collector (reactor w)) = true ->
    collector (reactor (exec_all ops w)) = collector (reactor w).
Proof.
  induction ops as [|c ops IH]; intros w F; [reflexivity|].
  change (exec_all (c :: ops) w) with (exec_all ops (exec c w)).
  rewrite IH; [now apply exec_released|].
  now rewrite exec_released.
Qed.

(** C3 (as amended).  While the collector has not been released, the
    selectable events published for a registered selectable form INIT, then
    any number of UPDATED, then at most one FINAL, the FINAL being there
    exactly when the [PNI_TERMINATED] marker is set.  Registration publishes
    exactly one [PN_SELECTABLE_INIT]; an update publishes
    [PN_SELECTABLE_UPDATED] while the selectable is not terminal; the first
    update of a terminal selectable sets the marker and publishes
    [PN_SELECTABLE_FINAL]; once the marker is set an update does nothing at
    all.  The shape is kept by every sequence of client calls and, with
    handlers that keep it, by every call of [pn_reactor_process] and
    [pn_reactor_work] that returns and by [pn_reactor_stop] up to its
    release of the collector; the loop pops what it has dispatched, so the
    events published are those dispatched together with those still
    queued.  Once the collector is released no client call publishes
    anything: a registration then publishes no INIT and a terminal update
    no FINAL. *)
Theorem selectable_event_sequence :
  (* registration *)
  (forall w,
      freed (collector (reactor w)) = false ->
      let w1 := fst (pn_reactor_selectable w) in
      let s := snd (pn_reactor_selectable w) in
      events w1 = events w ++ [mkEvent (ObjSelectable s) PN_SELECTABLE_INIT]
      /\ lifecycle_invariant s [PN_SELECTABLE_INIT] w1)
  (* the three cases of an update *)
  /\ (forall s w,
         live s w ->
         (selectable_terminated w s = false ->
          pn_selectable_is_terminal w s = false ->
          events (pn_reactor_update s w)
          = events w ++ [mkEvent (ObjSelectable s) PN_SELECTABLE_UPDATED]
          /\ selectable_terminated (pn_reactor_update s w) s = false)
         /\ (selectable_terminated w s = false ->
             pn_selectable_is_terminal w s = true ->
             events (pn_reactor_update s w)
             = events w ++ [mkEvent (ObjSelectable s) PN_SELECTABLE_FINAL]
             /\ selectable_terminated (pn_reactor_update s w) s = true)
         /\ (selectable_terminated w s = true -> pn_reactor_update s w = w))
  (* the shape and what keeps it *)
  /\ (forall s evs w,
         lifecycle_invariant s evs w ->
         selectable_lifecycle evs = true
         /\ (forall ops,
                exists l,
                  events (exec_all ops w) = events w ++ l
                  /\ lifecycle_invariant s (evs ++ events_of_selectable s l)
                       (exec_all ops w))
         /\ (handlers_keep_lifecycle ->
             forall fuel,
               (forall b w' log,
                   pn_reactor_process fuel w = Some (b, w', log) ->
                   exists added,
                     dispatched log ++ events w' = events w ++ added
                     /\ lifecycle_invariant s
                          (evs ++ events_of_selectable s added) w')
               /\ (forall ms b w' log,
                      pn_reactor_work fuel w ms = Some (b, w', log) ->
                      exists added,
                        dispatched log ++ events w' = events w ++ added
                        /\ lifecycle_invariant s
                             (evs ++ events_of_selectable s added) w')
               /\ (forall w' log,
                      pn_reactor_stop fuel w = Some (w', log) ->
                      exists w1 added,
                        w' = reactor_release w1
                        /\ dispatched log ++ events w1 = events w ++ added
                        /\ lifecycle_invariant s
                             (evs ++ events_of_selectable s added) w1)))
  (* a released collector *)
  /\ (forall w,
         freed (collector (reactor w)) = true ->
         forall ops,
           collector (reactor (exec_all ops w)) = collector (reactor w)).
Proof.
  split; [|split; [|split]].
  - intros w F w1 s.
    destruct (selectable_registered w F) as (Hs & E1 & L1 & M1 & T1).
    fold w1 in E1, L1, M1, T1. fold s in Hs. rewrite <- Hs in E1, L1, M1, T1.
    split; [exact E1|].
    split; [exact L1|]. split; [congruence|].
    rewrite M1. now exists 0.
  - intros s w L.
    destruct (update_cases L) as (U1 & U2 & U3).
    split; [exact U2|]. split; [exact U3|exact U1].
  - intros s evs w K.
    split; [destruct K as (_ & _ & K); now apply lifecycle_so_far_ok in K|].
    split; [intros ops; exact (@exec_all_keeps s ops w evs K)|].
    intros HK fuel. split; [|split].
    + intros b w' log H.
      pose proof (process_lifecycle HK) as P.
      exact (P s fuel _ _ _ _ evs H K).
    + intros ms b w' log H. unfold pn_reactor_work in H.
      assert (K' : lifecycle_invariant s evs
                     (upd_reactor (set_timeout ms) w)) by exact K.
      pose proof (process_lifecycle HK) as P.
      destruct (P s fuel _ _ _ _ evs H K') as (added & E & K1).
      exists added. split; [exact E|exact K1].
    + intros w' log. unfold pn_reactor_stop.
      destruct (pn_reactor_process fuel
                  (reactor_put ObjReactor PN_REACTOR_FINAL w))
        as [[[b w1] l1]|] eqn:H; [|discriminate].
      intros [= <- <-].
      assert (Q : keeps_lifecycle s w
                    (reactor_put ObjReactor PN_REACTOR_FINAL w)).
      { apply quiet_keeps, quiet_put. discriminate. }
      destruct (Q evs K) as (l0 & E0 & K0).
      pose proof (process_lifecycle HK) as P.
      destruct (P s fuel _ _ _ _ _ H K0) as (added & E1 & K1).
      exists w1, (l0 ++ added). split; [reflexivity|]. split.
      * rewrite E1, E0. now rewrite app_assoc.
      * rewrite events_of_selectable_app, app_assoc. exact K1.
  - intros w F ops. now apply exec_all_released.
Qed.

(** C5 (as amended).  Within one call of [pn_reactor_process], with handlers
    that do not themselves enqueue [PN_REACTOR_QUIESCED]: no two dispatched
    [PN_REACTOR_QUIESCED] are adjacent, and no [PN_REACTOR_QUIESCED] is
    dispatched directly after a [PN_REACTOR_FINAL], the one dispatched last
    before the call included.  The condition on the queue at entry holds
    again at exit, so the second property carries over from call to call. *)
Theorem quiesced_guards_within_a_call :
  handlers_never_quiesce ->
  forall fuel w b w' log,
    existsb is_quiesced (tl (events w)) = false ->
    (previous (reactor w) = PN_REACTOR_FINAL ->
     existsb is_quiesced (events w) = false) ->
    pn_reactor_process fuel w = Some (b, w', log) ->
    quiesced_not_adjacent (dispatched_types log) = true
    /\ quiesced_not_after_final (previous (reactor w) :: dispatched_types log)
       = true
    /\ previous (reactor w')
       = last (dispatched_types log) (previous (reactor w))
    /\ existsb is_quiesced (tl (events w')) = false
    /\ (previous (reactor w') = PN_REACTOR_FINAL ->
        existsb is_quiesced (events w') = false).
Proof.
  intros HQ fuel w b w' log HT HF H.
  unfold pn_reactor_process in H.
  eapply (process_loop_quiesced HQ (previous (reactor w))) in H; eauto.
  intros [X|X]; [auto|discriminate].
Qed.

(** C8.  [pn_reactor_stop] releases the collector after its one call of
    [pn_reactor_process] whatever that call returned: it dispatches what
    that call dispatched and nothing more, and the events still queued
    when the call returned are dropped with the release. *)
Theorem stop_releases_unconditionally :
  forall fuel w b w1 log,
    pn_reactor_process fuel (reactor_put ObjReactor PN_REACTOR_FINAL w)
    = Some (b, w1, log) ->
    pn_reactor_stop fuel w = Some (reactor_release w1, log)
    /\ events (reactor_release w1) = []
    /\ freed (collector (reactor (reactor_release w1))) = true
    /\ returned log = [b]
    /\ forall e, In e (events w1) -> ~ In e (events (reactor_release w1)).
Proof.
  intros fuel w b w1 log H.
  unfold pn_reactor_stop. rewrite H.
  split; [reflexivity|]. split; [reflexivity|]. split; [reflexivity|].
  split; [|intros e _ []].
  unfold pn_reactor_process in H. revert H.
  generalize (pn_reactor_mark (reactor_put ObjReactor PN_REACTOR_FINAL w)).
  generalize PN_EVENT_NONE.
  assert (G : forall fuel p w0 l0,
             process_loop fuel p w0 l0 = Some (b, w1, log) ->
             returned log = returned l0 ++ [b]).
  { clear. intros fuel.
    induction fuel as [|fuel IH]; intros p w0 l0; simpl; [discriminate|].
    destruct (process_turn p w0) as [p' w' l|b' w'] eqn:T.
    - intros H. apply IH in H. rewrite H, returned_app.
      replace (returned l) with (@nil bool); [now rewrite app_nil_r|].
      unfold process_turn in T.
      destruct (pn_collector_peek (collector (reactor w0))).
      + destruct (yield (reactor w0)); [discriminate|].
        injection T as <- <- <-. reflexivity.
      + destruct (pni_reactor_more w0).
        * destruct (negb _ && negb _); [|discriminate].
          injection T as <- <- <-. reflexivity.
        * destruct (selectable (reactor w0)); [|discriminate].
          injection T as <- <- <-. reflexivity.
    - intros [= <- <- <-]. now rewrite returned_app. }
  intros p w0 H. now apply G in H.
Qed.

(** C10.  [pn_reactor_free] on a null reactor returns at once and changes
    nothing.  On a reactor it releases the collector, frees the root
    handler, clears that field and drops the reference to the reactor.  The
    other entry points assert their argument instead and abort on null. *)
Theorem free_accepts_null :
  (forall w, pn_reactor_free reactor_NULL w = Returns (w, []))
  /\ (forall w,
         pn_reactor_free reactor_ptr w
         = Returns (upd_reactor (set_handler None) (reactor_release w),
                    [ObsHandlerFree (handler (reactor w)); ObsDecref ObjReactor])
         /\ events (upd_reactor (set_handler None) (reactor_release w)) = []
         /\ freed (collector (reactor
                     (upd_reactor (set_handler None) (reactor_release w))))
            = true
         /\ handler (reactor (upd_reactor (set_handler None) (reactor_release w)))
            = None)
  /\ (forall w fuel rounds sel h ms,
         pn_reactor_mark_at reactor_NULL w = AssertFails
         /\ pn_reactor_timeout_at reactor_NULL w = AssertFails
         /\ pn_reactor_global_at reactor_NULL h w = AssertFails
         /\ pn_reactor_selectable_at reactor_NULL w = AssertFails
         /\ pn_reactor_update_at reactor_NULL sel w = AssertFails
         /\ pn_reactor_yield_at reactor_NULL w = AssertFails
         /\ pn_reactor_start_at reactor_NULL w = AssertFails
         /\ pn_reactor_process_at reactor_NULL fuel w = AssertFails
         /\ pn_reactor_work_at reactor_NULL fuel w ms = AssertFails
         /\ pn_reactor_stop_at reactor_NULL fuel w = AssertFails
         /\ pn_reactor_run_at reactor_NULL rounds fuel w = AssertFails).
Proof.
  split; [reflexivity|]. split.
  - intros w. repeat split.
  - intros. repeat split.
Qed.

(** *** First in, first out *)

(** With handlers that only add to the queue, a turn either dispatches the
    head of the queue or leaves the queue as a prefix of the new one. *)
Lemma process_turn_fifo :
  handlers_append_only ->
  forall p w,
    match process_turn p w with
    | Continue _ w1 l1 => exists la, dispatched l1 ++ events w1 = events w ++ la
    | Return _ w1 => events w1 = events w
    end.
Proof.
  intros HA p w. pose proof HA as [Hd _].
  unfold process_turn.
  destruct (pn_collector_peek (collector (reactor w))) as [event|] eqn:P.
  - destruct (yield (reactor w)) eqn:Y; [reflexivity|].
    apply peek_some in P. destruct P as [q Hq].
    change (queue (collector (reactor w))) with (events w) in Hq.
    set (w1 := pni_reactor_dispatch_pre (upd_reactor (set_yield false) w) event).
    set (h := pn_event_handler w1 event (handler (reactor w1))).
    set (w2 := pn_handler_dispatch h event w1).
    set (g := global (reactor w2)).
    set (w3 := pn_handler_dispatch g event w2).
    set (w4 := pni_reactor_dispatch_post w3 event).
    assert (E1 : events w1 = event :: q).
    { unfold w1. rewrite events_pre. exact Hq. }
    destruct (Hd h event w1) as (l2 & E2). fold w2 in E2.
    destruct (Hd g event w2) as (l3 & E3). fold w3 in E3.
    destruct (events_post_append HA w3 event) as (l4 & E4). fold w4 in E4.
    exists (l2 ++ l3 ++ l4).
    change (events (pop_event (upd_reactor (set_previous (pn_event_type event)) w4)))
      with (tl (events w4)).
    rewrite E4, E3, E2, E1, Hq. simpl. now rewrite <- !app_assoc.
  - destruct (pni_reactor_more w).
    + destruct (negb _ && negb _); [|reflexivity].
      rewrite events_reactor_put. simpl.
      destruct (freed (collector (reactor w))).
      * exists []. now rewrite app_nil_r.
      * eexists. reflexivity.
    + destruct (selectable (reactor w)) as [sel|]; [|reflexivity].
      destruct (update_events sel (pn_selectable_terminate sel w))
        as (l & El & _).
      exists l. exact El.
Qed.

Lemma process_loop_fifo :
  handlers_append_only ->
  forall fuel p w log b w' log',
    process_loop fuel p w log = Some (b, w', log') ->
    exists l, dispatched log' ++ events w' = dispatched log ++ events w ++ l.
Proof.
  intros HA fuel.
  induction fuel as [|fuel IH]; intros p w log b w' log'; simpl; [discriminate|].
  pose proof (process_turn_fifo HA p w) as T.
  destruct (process_turn p w) as [p1 w1 l1|b1 w1].
  - intros H. apply IH in H. destruct H as [l H]. destruct T as [la T].
    exists (la ++ l). rewrite H, dispatched_app, <- (app_assoc (dispatched log)).
    f_equal. rewrite (app_assoc (dispatched l1)), T.
    now rewrite <- app_assoc.
  - intros [= <- <- <-]. exists [].
    rewrite dispatched_app, T. simpl. now rewrite !app_nil_r.
Qed.

(** C7 (as amended).  When the first [pn_reactor_stop] finds the collector
    in use and its call of [pn_reactor_process] empties the queue, ending
    either fully drained ([false]) or with [PN_REACTOR_FINAL] as the last
    event dispatched, then: that call dispatched everything queued before
    it and then the [PN_REACTOR_FINAL] it enqueued; and a second
    [pn_reactor_stop] enqueues nothing, dispatches nothing and leaves the
    reactor as it is but for the refreshed clock, the collector staying
    released. *)
Theorem second_stop_is_a_noop :
  handlers_append_only ->
  forall fuel w b w1 log,
    freed (collector (reactor w)) = false ->
    pn_reactor_process fuel (reactor_put ObjReactor PN_REACTOR_FINAL w)
    = Some (b, w1, log) ->
    events w1 = [] ->
    b = false \/ previous (reactor w1) = PN_REACTOR_FINAL ->
    pn_reactor_stop fuel w = Some (reactor_release w1, log)
    /\ (exists rest,
           dispatched log
           = events w ++ mkEvent ObjReactor PN_REACTOR_FINAL :: rest)
    /\ forall fuel',
        pn_reactor_stop (S fuel') (reactor_release w1)
        = Some (pn_reactor_mark (reactor_release w1), [ObsReturn b])
        /\ reactor_release (pn_reactor_mark (reactor_release w1))
           = pn_reactor_mark (reactor_release w1).
Proof.
  intros HA fuel w b w1 log F H E Hb.
  split; [|split].
  - unfold pn_reactor_stop. now rewrite H.
  - unfold pn_reactor_process in H.
    apply (process_loop_fifo HA) in H. destruct H as [l H].
    rewrite E, app_nil_r in H. simpl in H.
    change (events (pn_reactor_mark (reactor_put ObjReactor PN_REACTOR_FINAL w)))
      with (events (reactor_put ObjReactor PN_REACTOR_FINAL w)) in H.
    rewrite events_reactor_put, F in H.
    exists l. rewrite H. now rewrite <- app_assoc.
  - intros fuel'. split; [|reflexivity].
    pose proof H as R. unfold pn_reactor_process in R.
    apply process_loop_return in R.
    unfold pn_reactor_stop, pn_reactor_process.
    change (reactor_put ObjReactor PN_REACTOR_FINAL (reactor_release w1))
      with (reactor_release w1).
    simpl process_loop. unfold process_turn.
    change (pn_collector_peek
              (collector (reactor (pn_reactor_mark (reactor_release w1)))))
      with (@None pn_event_t).
    change (pni_reactor_more (pn_reactor_mark (reactor_release w1)))
      with (pni_reactor_more w1).
    change (previous (reactor (pn_reactor_mark (reactor_release w1))))
      with (previous (reactor w1)).
    change (selectable (reactor (pn_reactor_mark (reactor_release w1))))
      with (selectable (reactor w1)).
    destruct R as [[-> [R|R]]|[-> (_ & M & S)]].
    + contradiction.
    + rewrite R. destruct Hb as [Hb|Hb]; [discriminate|].
      apply event_type_eqb_eq in Hb. rewrite Hb.
      rewrite andb_false_r. reflexivity.
    + rewrite M, S. reflexivity.
Qed.

(** *** Fuel, and what an update leaves alone *)

Lemma process_loop_more_fuel fuel p w log r :
  process_loop fuel p w log = Some r ->
  forall extra, process_loop (fuel + extra) p w log = Some r.
Proof.
  revert p w log.
  induction fuel as [|fuel IH]; intros p w log; simpl; [discriminate|].
  destruct (process_turn p w); auto.
Qed.

(** [pn_reactor_update] adds at most one event and touches neither the
    timer nor the counters of the reactor. *)
Lemma update_frame sel w :
  (events (pn_reactor_update sel w) = events w
   \/ exists e, events (pn_reactor_update sel w) = events w ++ [e])
  /\ freed (collector (reactor (pn_reactor_update sel w)))
     = freed (collector (reactor w))
  /\ pni_reactor_more (pn_reactor_update sel w) = pni_reactor_more w
  /\ selectable (reactor (pn_reactor_update sel w)) = selectable (reactor w)
  /\ yield (reactor (pn_reactor_update sel w)) = yield (reactor w).
Proof.
  unfold pn_reactor_update.
  destruct (nth_error (sels w) sel) as [s|]; [|repeat split; auto].
  destruct (negb _); [|repeat split; auto].
  destruct (sel_terminal s).
  - split; [|split; [rewrite freed_reactor_put; reflexivity|repeat split]].
    rewrite events_reactor_put. simpl.
    destruct (freed (collector (reactor w))); eauto.
  - split; [|split; [rewrite freed_reactor_put; reflexivity|repeat split]].
    rewrite events_reactor_put.
    destruct (freed (collector (reactor w))); eauto.
Qed.

(** A released collector takes no [PN_REACTOR_QUIESCED]: with work pending
    and no [PN_REACTOR_FINAL] dispatched last, the loop then never ends. *)
Lemma released_collector_hangs w :
  freed (collector (reactor w)) = true ->
  events w = [] ->
  pni_reactor_more w = true ->
  previous (reactor w) <> PN_REACTOR_FINAL ->
  forall fuel p log,
    p <> PN_REACTOR_QUIESCED -> process_loop fuel p w log = None.
Proof.
  intros F E M N fuel.
  induction fuel as [|fuel IH]; intros p log Hp; simpl; [reflexivity|].
  unfold process_turn.
  apply peek_none in E. rewrite E, M.
  apply event_type_eqb_neq in Hp. apply event_type_eqb_neq in N.
  rewrite Hp, N. simpl.
  rewrite (reactor_put_released _ _ w F), app_nil_r.
  apply IH. now apply event_type_eqb_neq.
Qed.

(** *** The call as the run of its turns *)

Lemma last_app {A : Type} (a b : list A) (d : A) :
  last (a ++ b) d = last b (last a d).
Proof.
  revert d. induction a as [|x a IH]; intros d; [reflexivity|].
  change ((x :: a) ++ b) with (x :: (a ++ b)).
  rewrite !last_cons_default. apply IH.
Qed.




(** *** Termination with handlers that leave the pending work alone *)





(** *** More about one call of the loop *)

Lemma process_turn_previous p w :
  match process_turn p w with
  | Continue _ w1 l1 =>
      previous (reactor w1) = last (dispatched_types l1) (previous (reactor w))
  | Return _ w1 => previous (reactor w1) = previous (reactor w)
  end.
Proof.
  unfold process_turn.
  destruct (pn_collector_peek (collector (reactor w))) as [event|].
  - destruct (yield (reactor w)); reflexivity.
  - destruct (pni_reactor_more w).
    + destruct (negb _ && negb _); reflexivity.
    + destruct (selectable (reactor w)) as [sel|]; [|reflexivity].
      destruct (update_events sel (pn_selectable_terminate sel w))
        as (l & _ & _ & P).
      exact P.
Qed.

Lemma process_loop_previous p0 fuel :
  forall p w log b w' log',
    process_loop fuel p w log = Some (b, w', log') ->
    previous (reactor w) = last (dispatched_types log) p0 ->
    previous (reactor w') = last (dispatched_types log') p0.
Proof.
  induction fuel as [|fuel IH]; intros p w log b w' log'; simpl; [discriminate|].
  pose proof (process_turn_previous p w) as T.
  destruct (process_turn p w) as [p1 w1 l1|b1 w1].
  - intros H Hp. apply IH in H; auto.
    rewrite dispatched_types_app, last_app, <- Hp. exact T.
  - intros [= <- <- <-] Hp.
    rewrite dispatched_types_app, app_nil_r, T. exact Hp.
Qed.

(** X3.  Whatever the handlers do, when a call of [pn_reactor_process]
    returns, [reactor->previous] is the type of the last event the call
    dispatched, and is what it was when nothing was dispatched. *)
Theorem previous_is_last_dispatched :
  forall fuel w b w' log,
    pn_reactor_process fuel w = Some (b, w', log) ->
    previous (reactor w')
    = last (dispatched_types log) (previous (reactor w)).
Proof.
  intros fuel w b w' log H. unfold pn_reactor_process in H.
  apply (process_loop_previous (previous (reactor w))) in H; auto.
Qed.

(** X1.  Events are dispatched first in, first out: with handlers that only
    add to the collector, what a call dispatched, followed by what it left
    queued, is what was queued at entry followed by what was added
    meanwhile. *)
Theorem process_dispatches_in_queue_order :
  handlers_append_only ->
  forall fuel w b w' log,
    pn_reactor_process fuel w = Some (b, w', log) ->
    exists added, dispatched log ++ events w' = events w ++ added.
Proof.
  intros HA fuel w b w' log H. unfold pn_reactor_process in H.
  apply (process_loop_fifo HA) in H. exact H.
Qed.

Lemma process_turn_no_yield :
  handlers_never_yield ->
  forall p w,
    yield (reactor w) = false ->
    match process_turn p w with
    | Continue _ w1 _ => yield (reactor w1) = false
    | Return _ w1 => yield (reactor w1) = false /\ events w1 = []
    end.
Proof.
  intros [Hd Hf] p w Y. unfold process_turn.
  destruct (pn_collector_peek (collector (reactor w))) as [event|] eqn:P.
  - rewrite Y.
    match goal with
    | |- yield (reactor (pop_event (upd_reactor _ ?x))) = false =>
        change (yield (reactor x) = false)
    end.
    assert (Hp : forall w0, yield (reactor w0) = false ->
                 yield (reactor (pni_reactor_dispatch_post w0 event)) = false).
    { intros w0 Y0. unfold pni_reactor_dispatch_post.
      destruct (pn_event_type event); auto. }
    apply Hp, Hd, Hd. now rewrite reactor_pre.
  - apply peek_none in P.
    destruct (pni_reactor_more w).
    + destruct (negb _ && negb _); [exact Y|]. split; [exact Y|exact P].
    + destruct (selectable (reactor w)) as [sel|]; [|split; [exact Y|exact P]].
      destruct (update_frame sel (pn_selectable_terminate sel w))
        as (_ & _ & _ & _ & Yu).
      change (yield (reactor (pn_reactor_update sel
                (pn_selectable_terminate sel w))) = false).
      rewrite Yu. exact Y.
Qed.

Lemma process_loop_no_yield :
  handlers_never_yield ->
  forall fuel p w log b w' log',
    process_loop fuel p w log = Some (b, w', log') ->
    yield (reactor w) = false ->
    yield (reactor w') = false /\ events w' = [].
Proof.
  intros HY fuel.
  induction fuel as [|fuel IH]; intros p w log b w' log'; simpl; [discriminate|].
  intros H Y.
  pose proof (process_turn_no_yield HY p w Y) as T.
  destruct (process_turn p w) as [p1 w1 l1|b1 w1].
  - eapply IH; eauto.
  - injection H as <- <- <-. exact T.
Qed.

(** X2.  When no yield is pending and handlers ask for none, a call of
    [pn_reactor_process] returns only with the collector empty: every
    event queued at entry has been dispatched, in order, followed by the
    events added during the call. *)
Theorem process_drains_without_yield :
  handlers_append_only ->
  handlers_never_yield ->
  forall fuel w b w' log,
    yield (reactor w) = false ->
    pn_reactor_process fuel w = Some (b, w', log) ->
    events w' = []
    /\ yield (reactor w') = false
    /\ exists added, dispatched log = events w ++ added.
Proof.
  intros HA HY fuel w b w' log Y H.
  pose proof H as F. unfold pn_reactor_process in F.
  apply (process_loop_fifo HA) in F. destruct F as [added F].
  unfold pn_reactor_process in H.
  apply (process_loop_no_yield HY) in H; [|exact Y].
  destruct H as [Y' E]. split; [exact E|]. split; [exact Y'|].
  exists added. rewrite E, app_nil_r in F. exact F.
Qed.

(** *** Yield *)

(** X4.  A yield asked for while an event is dispatched cuts the loop before
    the next event: if the yield flag is set once the handlers and the
    post-dispatch hook of the first queued event are done, and another
    event is queued behind it, the call returns [true] having dispatched
    the first event only; the second is then the head of the collector
    and the flag is cleared. *)
Theorem yield_cuts_between_events :
  handlers_append_only ->
  forall fuel w e e2 q,
    events w = e :: e2 :: q ->
    yield (reactor w) = false ->
    let w0 := pn_reactor_mark w in
    let w1 := pni_reactor_dispatch_pre (upd_reactor (set_yield false) w0) e in
    let h := pn_event_handler w0 e (handler (reactor w0)) in
    let w2 := pn_handler_dispatch h e w1 in
    let w3 := pn_handler_dispatch (global (reactor w2)) e w2 in
    let w4 := pni_reactor_dispatch_post w3 e in
    yield (reactor w4) = true ->
    exists w' log rest,
      pn_reactor_process (2 + fuel) w = Some (true, w', log)
      /\ dispatched log = [e]
      /\ events w' = e2 :: rest
      /\ yield (reactor w') = false.
Proof.
  intros HA fuel w e e2 q Hq Y w0 w1 h w2 w3 w4 Y4.
  pose proof HA as [Hd _].
  assert (E0 : events w0 = e :: e2 :: q) by exact Hq.
  assert (E1 : events w1 = e :: e2 :: q).
  { unfold w1. rewrite events_pre. exact E0. }
  destruct (Hd h e w1) as [l2 E2]. fold w2 in E2. rewrite E1 in E2.
  destruct (Hd (global (reactor w2)) e w2) as [l3 E3]. fold w3 in E3.
  rewrite E2 in E3.
  destruct (events_post_append HA w3 e) as [l4 E4]. fold w4 in E4.
  rewrite E3 in E4. simpl in E4.
  assert (R : pn_event_handler w1 e (handler (reactor w1)) = h).
  { unfold w1. rewrite pn_event_handler_pre, reactor_pre. reflexivity. }
  set (w5 := pop_event (upd_reactor (set_previous (pn_event_type e)) w4)).
  assert (E5 : events w5 = e2 :: (q ++ l2) ++ l3 ++ l4).
  { change (events w5) with (tl (events w4)). rewrite E4. simpl.
    now rewrite <- !app_assoc. }
  assert (Y5 : yield (reactor w5) = true) by exact Y4.
  assert (T1 : exists log1,
             process_turn PN_EVENT_NONE w0 = Continue (pn_event_type e) w5 log1
             /\ dispatched log1 = [e]).
  { unfold process_turn.
    rewrite (peek_events w0 E0).
    change (yield (reactor w0)) with (yield (reactor w)). rewrite Y.
    fold w1. rewrite R. fold w2. fold w3. fold w4.
    eexists. split; reflexivity. }
  destruct T1 as (log1 & T1 & D1).
  exists (upd_reactor (set_yield false) w5), (log1 ++ [ObsReturn true]).
  exists ((q ++ l2) ++ l3 ++ l4).
  split; [|split; [|split]].
  - unfold pn_reactor_process. fold w0.
    change (2 + fuel) with (S (S fuel)).
    simpl process_loop. rewrite T1.
    unfold process_turn. rewrite (peek_events w5 E5), Y5. reflexivity.
  - rewrite dispatched_app, D1. reflexivity.
  - exact E5.
  - reflexivity.
Qed.

(** X5.  A yield pending on an empty queue is not lost and does not stop
    the bookkeeping: the call still enqueues what the loop itself produces,
    and it is that event which consumes the yield, so the call returns
    [true] with the event still queued and nothing dispatched.  With work
    pending the event is [PN_REACTOR_QUIESCED]; with none and the timer
    selectable still there it is the [PN_SELECTABLE_FINAL] of that
    selectable, and the call returns [true] although there is no more
    work. *)
Theorem pending_yield_on_empty_queue :
  forall fuel w,
    events w = [] ->
    yield (reactor w) = true ->
    freed (collector (reactor w)) = false ->
    (pni_reactor_more w = true ->
     previous (reactor w) <> PN_REACTOR_FINAL ->
     exists w',
       pn_reactor_process (2 + fuel) w = Some (true, w', [ObsReturn true])
       /\ events w' = [mkEvent ObjReactor PN_REACTOR_QUIESCED]
       /\ yield (reactor w') = false)
    /\ (forall sel,
           pni_reactor_more w = false ->
           selectable (reactor w) = Some sel ->
           sel < length (sels w) ->
           selectable_terminated w sel = false ->
           exists w',
             pn_reactor_process (2 + fuel) w = Some (true, w', [ObsReturn true])
             /\ events w' = [mkEvent (ObjSelectable sel) PN_SELECTABLE_FINAL]
             /\ yield (reactor w') = false
             /\ pni_reactor_more w' = false
             /\ selectable (reactor w') = None).
Proof.
  intros fuel w E Y F.
  set (w0 := pn_reactor_mark w).
  assert (P0 : pn_collector_peek (collector (reactor w0)) = None).
  { apply peek_none. exact E. }
  split.
  - intros M N.
    set (w1 := reactor_put ObjReactor PN_REACTOR_QUIESCED w0).
    assert (E1 : events w1 = [mkEvent ObjReactor PN_REACTOR_QUIESCED]).
    { unfold w1. rewrite events_reactor_put.
      change (freed (collector (reactor w0)))
        with (freed (collector (reactor w))).
      rewrite F. change (events w0) with (events w). now rewrite E. }
    exists (upd_reactor (set_yield false) w1).
    split; [|split; [exact E1|reflexivity]].
    unfold pn_reactor_process. fold w0.
    change (2 + fuel) with (S (S fuel)). simpl process_loop.
    unfold process_turn at 1. rewrite P0.
    change (pni_reactor_more w0) with (pni_reactor_more w). rewrite M.
    change (previous (reactor w0)) with (previous (reactor w)).
    apply event_type_eqb_neq in N. rewrite N. simpl andb. cbv iota.
    fold w1. unfold process_turn. rewrite (peek_events w1 E1).
    change (yield (reactor w1)) with (yield (reactor w)). rewrite Y.
    reflexivity.
  - intros sel M Hs L T.
    set (wt := pn_selectable_terminate sel w0).
    assert (Lt : live sel wt).
    { split.
      - unfold wt, pn_selectable_terminate. simpl.
        now rewrite list_update_length.
      - exact F. }
    assert (Tt : selectable_terminated wt sel = false).
    { unfold selectable_terminated, pn_selectable_attachments, wt in *.
      simpl. rewrite nth_error_list_update_same.
      change (sels w0) with (sels w).
      destruct (nth_error (sels w) sel); simpl; auto. }
    assert (It : pn_selectable_is_terminal wt sel = true).
    { unfold pn_selectable_is_terminal, wt. simpl.
      rewrite nth_error_list_update_same.
      change (sels w0) with (sels w).
      destruct (nth_error (sels w) sel) eqn:X; simpl; auto.
      apply nth_error_None in X. lia. }
    destruct (update_cases Lt) as (_ & _ & U).
    destruct (U Tt It) as (Eu & _).
    destruct (update_frame sel wt) as (_ & _ & Mu & _ & Yu).
    set (wu := pn_reactor_update sel wt) in *.
    set (w1 := upd_reactor (set_selectable None) wu).
    assert (E1 : events w1 = [mkEvent (ObjSelectable sel) PN_SELECTABLE_FINAL]).
    { change (events w1) with (events wu). rewrite Eu.
      change (events wt) with (events w). now rewrite E. }
    exists (upd_reactor (set_yield false) w1).
    split; [|split; [exact E1|split; [reflexivity|split; [|reflexivity]]]].
    + unfold pn_reactor_process. fold w0.
      change (2 + fuel) with (S (S fuel)). simpl process_loop.
      unfold process_turn at 1. rewrite P0.
      change (pni_reactor_more w0) with (pni_reactor_more w). rewrite M.
      change (selectable (reactor w0)) with (selectable (reactor w)).
      rewrite Hs. fold wt. fold wu. fold w1.
      unfold process_turn. rewrite (peek_events w1 E1).
      change (yield (reactor w1)) with (yield (reactor wu)).
      rewrite Yu. change (yield (reactor wt)) with (yield (reactor w)).
      rewrite Y. reflexivity.
    + change (pni_reactor_more (upd_reactor (set_yield false) w1))
        with (pni_reactor_more wu).
      rewrite Mu. exact M.
Qed.

(** *** What the loop leaves alone *)

Lemma untouched_refl w : untouched w w.
Proof. unfold untouched. repeat split. Qed.

Lemma untouched_trans w1 w2 w3 :
  untouched w1 w2 -> untouched w2 w3 -> untouched w1 w3.
Proof.
  unfold untouched.
  intros (A1 & A2 & A3 & A4 & A5 & A6 & A7 & A8 & A9 & A10 & A11 & A12 & A13 & A14)
         (B1 & B2 & B3 & B4 & B5 & B6 & B7 & B8 & B9 & B10 & B11 & B12 & B13 & B14).
  repeat split; congruence.
Qed.

Lemma untouched_update sel w : untouched w (pn_reactor_update sel w).
Proof.
  unfold pn_reactor_update.
  destruct (nth_error (sels w) sel) as [s|]; [|apply untouched_refl].
  destruct (negb _); [|apply untouched_refl].
  destruct (sel_terminal s); unfold untouched; simpl;
    rewrite ?list_update_length; repeat split.
Qed.

Lemma untouched_pre w event : untouched w (pni_reactor_dispatch_pre w event).
Proof.
  unfold pni_reactor_dispatch_pre.
  destruct (pn_event_type event); try apply untouched_refl.
  destruct (pn_event_connection w event); [|apply untouched_refl].
  unfold untouched. repeat split.
Qed.

Lemma process_turn_untouched :
  handlers_leave_untouched ->
  forall p w,
    match process_turn p w with
    | Continue _ w1 _ => untouched w w1
    | Return _ w1 => untouched w w1
    end.
Proof.
  intros [Hd Hf] p w. unfold process_turn.
  destruct (pn_collector_peek (collector (reactor w))) as [event|].
  - destruct (yield (reactor w)); [unfold untouched; repeat split|].
    set (w0 := upd_reactor (set_yield false) w).
    set (w1 := pni_reactor_dispatch_pre w0 event).
    set (h := pn_event_handler w1 event (handler (reactor w1))).
    set (w2 := pn_handler_dispatch h event w1).
    set (w3 := pn_handler_dispatch (global (reactor w2)) event w2).
    set (w4 := pni_reactor_dispatch_post w3 event).
    assert (U0 : untouched w w0) by (unfold untouched; repeat split).
    assert (U4 : untouched w3 w4).
    { unfold w4, pni_reactor_dispatch_post.
      destruct (pn_event_type event); try apply untouched_refl. apply Hf. }
    assert (U5 : untouched w4
                   (pop_event (upd_reactor (set_previous (pn_event_type event)) w4)))
      by (unfold untouched; repeat split).
    eapply untouched_trans; [exact U0|].
    eapply untouched_trans; [apply untouched_pre|]. fold w1.
    eapply untouched_trans; [apply (Hd h event w1)|]. fold w2.
    eapply untouched_trans; [apply (Hd (global (reactor w2)) event w2)|].
    fold w3.
    eapply untouched_trans; [exact U4|exact U5].
  - destruct (pni_reactor_more w).
    + destruct (negb _ && negb _); unfold untouched; repeat split.
    + destruct (selectable (reactor w)) as [sel|]; [|apply untouched_refl].
      eapply untouched_trans with (w2 := pn_selectable_terminate sel w).
      { unfold untouched. simpl. rewrite list_update_length. repeat split. }
      eapply untouched_trans; [apply untouched_update|].
      unfold untouched. repeat split.
Qed.

Lemma process_loop_untouched :
  handlers_leave_untouched ->
  forall fuel p w log b w' log',
    process_loop fuel p w log = Some (b, w', log') -> untouched w w'.
Proof.
  intros HU fuel.
  induction fuel as [|fuel IH]; intros p w log b w' log'; simpl; [discriminate|].
  pose proof (process_turn_untouched HU p w) as T.
  destruct (process_turn p w) as [p1 w1 l1|b1 w1].
  - intros H. apply IH in H. eapply untouched_trans; eauto.
  - intros [= <- <- <-]. exact T.
Qed.

(** X6.  With handlers that themselves leave the parts listed in
    [untouched] alone, after a call of [pn_reactor_work] that returns
    [pn_reactor_timeout] reads the timeout given, [now] is the clock at
    entry, and these parts are what they were once the time was taken at
    entry: the reactor's attachments, global and root handler, children,
    timer, [now], counter and timeout, the tasks, sessions, links,
    deliveries and transports, and the number of selectables; and so is
    [pni_reactor_more].  The
    connections (the pre-dispatch hook binds them), the contents of the
    selectables (the loop terminates the timer selectable), the
    collector, the yield flag, [previous] and the timer selectable are
    not part of this frame. *)
Theorem work_keeps_the_frame :
  handlers_leave_untouched ->
  forall fuel w ms b w' log,
    pn_reactor_work fuel w ms = Some (b, w', log) ->
    pn_reactor_timeout w' = ms
    /\ now (reactor w') = clock w
    /\ pni_reactor_more w' = pni_reactor_more w
    /\ untouched (pn_reactor_mark (upd_reactor (set_timeout ms) w)) w'.
Proof.
  intros HU fuel w ms b w' log H.
  unfold pn_reactor_work, pn_reactor_process in H.
  apply (process_loop_untouched HU) in H.
  pose proof H as (_ & _ & _ & _ & U5 & U6 & U7 & U8 & _).
  split; [exact U8|]. split; [exact U6|]. split; [|exact H].
  unfold pni_reactor_more. rewrite U5, U7. reflexivity.
Qed.

(** *** The children and their counter *)

Lemma children_frame w w' :
  children (reactor w') = children (reactor w) ->
  selectables (reactor w') = selectables (reactor w) ->
  length (sels w') = length (sels w) ->
  children_ok w -> children_ok w'.
Proof.
  unfold children_ok. intros -> -> ->. auto.
Qed.

Lemma children_untouched w w' : untouched w w' -> children_ok w -> children_ok w'.
Proof.
  intros (_ & _ & _ & C & _ & _ & S & _ & _ & _ & _ & _ & _ & L).
  now apply children_frame.
Qed.

Lemma pn_list_remove_found l x r :
  pn_list_remove l x = (r, true) ->
  length l = S (length r)
  /\ (forall y, In y r -> In y l)
  /\ (NoDup l -> NoDup r /\ ~ In x r).
Proof.
  revert r. induction l as [|y l IH]; intros r; simpl; [discriminate|].
  destruct (Nat.eqb y x) eqn:E.
  - intros [= <-]. apply Nat.eqb_eq in E. subst y.
    split; [reflexivity|]. split; [auto|].
    intros N. inversion N; subst. auto.
  - destruct (pn_list_remove l x) as [r' b] eqn:R.
    intros [= <- ->].
    destruct (IH r' eq_refl) as (L & I & D).
    split; [simpl; now rewrite L|]. split.
    + intros z [->|Hz]; [now left|right; auto].
    + intros N. inversion N as [|? ? Hy Nl]; subst.
      destruct (D Nl) as [Nr Hx]. split.
      * constructor; auto.
      * intros [->|Hx']; [|auto]. now rewrite Nat.eqb_refl in E.
Qed.

Lemma pn_list_remove_absent l x : ~ In x l -> pn_list_remove l x = (l, false).
Proof.
  induction l as [|y l IH]; simpl; intros N; [reflexivity|].
  destruct (Nat.eqb y x) eqn:E.
  - apply Nat.eqb_eq in E. subst y. exfalso. auto.
  - rewrite IH by auto. reflexivity.
Qed.

Lemma pn_list_remove_not_found l x r :
  pn_list_remove l x = (r, false) -> r = l /\ ~ In x l.
Proof.
  revert r. induction l as [|y l IH]; intros r; simpl.
  - intros [= <-]. auto.
  - destruct (Nat.eqb y x) eqn:E; [discriminate|].
    destruct (pn_list_remove l x) as [r' b] eqn:R.
    intros [= <- ->]. destruct (IH r' eq_refl) as [-> N].
    split; [reflexivity|]. intros [->|H]; [|auto].
    now rewrite Nat.eqb_refl in E.
Qed.

Lemma pn_list_remove_last l x :
  ~ In x l -> pn_list_remove (l ++ [x]) x = (l, true).
Proof.
  induction l as [|y l IH]; simpl; intros N.
  - now rewrite Nat.eqb_refl.
  - destruct (Nat.eqb y x) eqn:E.
    + apply Nat.eqb_eq in E. subst y. exfalso. auto.
    + rewrite IH by auto. reflexivity.
Qed.

Lemma children_selectable w :
  children_ok w -> children_ok (fst (pn_reactor_selectable w)).
Proof.
  intros (N & B & C). unfold children_ok, pn_reactor_selectable. simpl.
  rewrite !list_update_length, !length_app. simpl.
  split; [|split].
  - apply NoDup_app; [exact N|repeat constructor; simpl; tauto|].
    intros c Hc [<-|[]]. apply B in Hc. lia.
  - intros c Hc. apply in_app_or in Hc. destruct Hc as [Hc|[<-|[]]].
    + apply B in Hc. lia.
    + lia.
  - rewrite C. lia.
Qed.

Lemma children_release sel w :
  children_ok w -> children_ok (pni_selectable_release sel w).
Proof.
  intros (N & B & C). unfold pni_selectable_release.
  destruct (obind (nth_error (sels w) sel) sel_context) as [[]|];
    try (repeat split; assumption).
  destruct (pn_list_remove (children (reactor w)) sel) as [rest found] eqn:R.
  destruct found.
  - destruct (pn_list_remove_found _ _ R) as (L & I & D).
    destruct (D N) as [Nr _].
    unfold children_ok. simpl. split; [exact Nr|]. split; [auto|].
    rewrite C, L. lia.
  - destruct (pn_list_remove_not_found _ _ R) as [-> _].
    unfold children_ok. simpl. auto.
Qed.

Lemma children_tick now0 w : children_ok w -> children_ok (pn_timer_tick now0 w).
Proof.
  unfold pn_timer_tick. cbv zeta.
  generalize (timer_matured now0 (timer (reactor w))).
  generalize (timer_pending now0 (timer (reactor w))).
  intros pending matured K.
  assert (K0 : children_ok (upd_reactor (set_timer pending) w)).
  { revert K. now apply children_frame. }
  revert K0. generalize (upd_reactor (set_timer pending) w).
  induction matured as [|k ks IH]; intros w1 K1; simpl; [exact K1|].
  apply IH. revert K1. now apply children_frame.
Qed.

Lemma children_exec c w : children_ok w -> children_ok (exec c w).
Proof.
  destruct c as [|x|x|x d|delay h|x| | |x]; simpl; intros K.
  - now apply children_selectable.
  - revert K. apply children_untouched, untouched_update.
  - revert K. apply children_frame; auto.
    simpl. now rewrite list_update_length.
  - revert K. apply children_frame; auto.
    simpl. now rewrite list_update_length.
  - unfold pn_reactor_schedule, pn_timer_schedule, upd_task. cbv zeta iota.
    simpl selectable.
    destruct (selectable (reactor w)) as [sel|]; unfold fst.
    + eapply children_untouched; [apply untouched_update|].
      revert K. apply children_frame; auto.
      simpl. now rewrite list_update_length.
    + revert K. now apply children_frame.
  - unfold pni_timer_expired.
    destruct (pni_reactor w x); [|exact K]. cbv zeta.
    eapply children_untouched; [apply untouched_update|].
    apply (children_tick (now (reactor w))) in K.
    revert K. apply children_frame; auto.
    simpl. now rewrite list_update_length.
  - revert K. now apply children_frame.
  - revert K. now apply children_frame.
  - now apply children_release.
Qed.

Lemma children_start w : children_ok w -> children_ok (pn_reactor_start w).
Proof.
  intros K. unfold pn_reactor_start, pni_timer_selectable. cbv zeta.
  set (w0 := reactor_put ObjReactor PN_REACTOR_INIT w).
  assert (K0 : children_ok w0) by (revert K; now apply children_frame).
  apply children_selectable in K0.
  destruct (pn_reactor_selectable w0) as [w1 sel]. simpl in K0.
  eapply children_frame; [| | |eapply children_untouched;
                                 [apply untouched_update|]]; try reflexivity.
  revert K0. apply children_frame; auto.
  simpl. now rewrite !list_update_length.
Qed.

Lemma children_turn :
  handlers_keep_children ->
  forall p w,
    children_ok w ->
    match process_turn p w with
    | Continue _ w1 _ => children_ok w1
    | Return _ w1 => children_ok w1
    end.
Proof.
  intros [Hd Hf] p w K. unfold process_turn.
  destruct (pn_collector_peek (collector (reactor w))) as [event|].
  - destruct (yield (reactor w)); [revert K; now apply children_frame|].
    set (w0 := upd_reactor (set_yield false) w).
    assert (K0 : children_ok w0) by (revert K; now apply children_frame).
    apply (children_untouched (untouched_pre w0 event)) in K0.
    set (w1 := pni_reactor_dispatch_pre w0 event) in *.
    apply (Hd (pn_event_handler w1 event (handler (reactor w1))) event) in K0.
    set (w2 := pn_handler_dispatch _ event w1) in *.
    apply (Hd (global (reactor w2)) event) in K0.
    set (w3 := pn_handler_dispatch _ event w2) in *.
    assert (K4 : children_ok (pni_reactor_dispatch_post w3 event)).
    { unfold pni_reactor_dispatch_post.
      destruct (pn_event_type event); auto. }
    revert K4. now apply children_frame.
  - destruct (pni_reactor_more w).
    + destruct (negb _ && negb _); [|exact K].
      revert K. now apply children_frame.
    + destruct (selectable (reactor w)) as [sel|]; [|exact K].
      eapply children_frame;
        [| | |eapply children_untouched; [apply untouched_update|]];
        try reflexivity.
      revert K. apply children_frame; auto.
      simpl. now rewrite list_update_length.
Qed.

Lemma children_loop :
  handlers_keep_children ->
  forall fuel p w log b w' log',
    process_loop fuel p w log = Some (b, w', log') ->
    children_ok w -> children_ok w'.
Proof.
  intros HK fuel.
  induction fuel as [|fuel IH]; intros p w log b w' log'; simpl; [discriminate|].
  intros H K. pose proof (children_turn HK p K) as T.
  destruct (process_turn p w) as [p1 w1 l1|b1 w1].
  - eapply IH; eauto.
  - injection H as <- <- <-. exact T.
Qed.

(** X7.  The counter [selectables] is the number of children, no selectable
    is listed twice and every child is a live selectable: this holds for a
    new reactor and is kept by [pn_reactor_start], by every client call and,
    with handlers that keep it, by [pn_reactor_process] and
    [pn_reactor_stop]. *)
Theorem children_counter_invariant :
  (forall clk, children_ok (pn_reactor_initialize clk))
  /\ (forall w, children_ok w -> children_ok (pn_reactor_start w))
  /\ (forall calls w, children_ok w -> children_ok (exec_all calls w))
  /\ (handlers_keep_children ->
      forall fuel w,
        children_ok w ->
        (forall b w' log,
            pn_reactor_process fuel w = Some (b, w', log) -> children_ok w')
        /\ (forall w' log,
               pn_reactor_stop fuel w = Some (w', log) -> children_ok w')).
Proof.
  split; [|split; [|split]].
  - intros clk. unfold children_ok. simpl.
    split; [constructor|]. split; [intros c []|reflexivity].
  - apply children_start.
  - intros calls. induction calls as [|c calls IH]; intros w K; [exact K|].
    apply (IH (exec c w)). now apply children_exec.
  - intros HK fuel w K. split.
    + intros b w' log H. unfold pn_reactor_process in H.
      eapply (children_loop HK); [exact H|].
      revert K. now apply children_frame.
    + intros w' log. unfold pn_reactor_stop.
      destruct (pn_reactor_process fuel
                  (reactor_put ObjReactor PN_REACTOR_FINAL w))
        as [[[b w1] l1]|] eqn:H; [|discriminate].
      intros [= <- <-]. unfold pn_reactor_process in H.
      apply (children_loop HK) in H.
      * revert H. now apply children_frame.
      * revert K. now apply children_frame.
Qed.

(** X8.  Releasing a selectable twice is releasing it once: the second call
    of [pni_selectable_release] finds it no more among the children and
    leaves the counter alone.  (With a selectable listed twice the second
    call would decrement again; the invariant of the children excludes
    that.) *)
Theorem release_twice_is_release_once :
  forall sel w,
    children_ok w ->
    pni_selectable_release sel (pni_selectable_release sel w)
    = pni_selectable_release sel w.
Proof.
  intros sel w (N & _ & _).
  destruct (obind (nth_error (sels w) sel) sel_context) as [o|] eqn:X.
  2:{ unfold pni_selectable_release. rewrite X. now rewrite X. }
  destruct o; try (unfold pni_selectable_release; rewrite X; now rewrite X).
  destruct (pn_list_remove (children (reactor w)) sel) as [rest found] eqn:R.
  assert (A : ~ In sel rest).
  { destruct found.
    - destruct (pn_list_remove_found _ _ R) as (_ & _ & D). now apply D.
    - destruct (pn_list_remove_not_found _ _ R) as [-> A]. exact A. }
  assert (E1 : pni_selectable_release sel w
               = if found
                 then upd_reactor
                        (fun r => set_selectables (selectables r - 1)%Z r)
                        (upd_reactor (set_children rest) w)
                 else upd_reactor (set_children rest) w).
  { unfold pni_selectable_release. rewrite X, R. reflexivity. }
  rewrite E1.
  destruct found; unfold pni_selectable_release; simpl; rewrite X;
    rewrite (pn_list_remove_absent _ _ A); reflexivity.
Qed.

(** X9.  Registering a selectable and releasing it again brings the
    children, the counter and [pni_reactor_more] back to what they were. *)
Theorem register_then_release :
  forall w,
    children_ok w ->
    let w1 := fst (pn_reactor_selectable w) in
    let sel := snd (pn_reactor_selectable w) in
    In sel (children (reactor w1))
    /\ selectables (reactor w1) = (selectables (reactor w) + 1)%Z
    /\ children (reactor (pni_selectable_release sel w1)) = children (reactor w)
    /\ selectables (reactor (pni_selectable_release sel w1))
       = selectables (reactor w)
    /\ pni_reactor_more (pni_selectable_release sel w1) = pni_reactor_more w.
Proof.
  intros w (N & B & C) w1 sel.
  assert (A : ~ In sel (children (reactor w))).
  { intros H. apply B in H. unfold sel in H. simpl in H. lia. }
  assert (X : obind (nth_error (sels w1) sel) sel_context = Some ObjReactor).
  { unfold w1, sel, pn_reactor_selectable. simpl.
    rewrite !nth_error_list_update_same, nth_error_snoc. reflexivity. }
  assert (Ch : children (reactor w1) = children (reactor w) ++ [sel])
    by reflexivity.
  assert (R : pni_selectable_release sel w1
              = upd_reactor (fun r => set_selectables (selectables r - 1)%Z r)
                  (upd_reactor (set_children (children (reactor w))) w1)).
  { unfold pni_selectable_release. rewrite X, Ch.
    rewrite (pn_list_remove_last _ _ A). reflexivity. }
  split; [rewrite Ch; apply in_or_app; right; now left|].
  split; [reflexivity|].
  rewrite R. split; [reflexivity|].
  assert (S1 : selectables (reactor
                 (upd_reactor (fun r => set_selectables (selectables r - 1)%Z r)
                    (upd_reactor (set_children (children (reactor w))) w1)))
               = selectables (reactor w)).
  { simpl. lia. }
  split; [exact S1|].
  unfold pni_reactor_more. rewrite S1. reflexivity.
Qed.

(** *** Attachments: handler and reactor *)

Lemma has_set r k k' v :
  pn_record_has (pn_record_set r k v) k' = pn_record_has r k'.
Proof.
  induction r as [|[k0 v0] r IH]; simpl; auto.
  destruct (handle_eqb k0 k); simpl; [reflexivity|now rewrite IH].
Qed.

Lemma get_set_same r k v :
  pn_record_has r k = true -> pn_record_get (pn_record_set r k v) k = v.
Proof.
  induction r as [|[k0 v0] r IH]; simpl; [discriminate|].
  destruct (handle_eqb k0 k) eqn:E; simpl; rewrite E; auto.
Qed.

Lemma has_def_other r k k' :
  k <> k' -> pn_record_has (pn_record_def r k) k' = pn_record_has r k'.
Proof.
  intros N. unfold pn_record_def.
  destruct (pn_record_has r k); auto.
  rewrite has_app.
  destruct (handle_eqb k k') eqn:E; [|apply orb_false_r].
  apply handle_eqb_eq in E. contradiction.
Qed.

Lemma get_handler_set_handler r h :
  pn_record_get_handler (pn_record_set_handler r h) = h.
Proof.
  unfold pn_record_get_handler, pn_record_set_handler.
  rewrite get_set_same by apply has_def_same.
  destruct h; reflexivity.
Qed.

Lemma get_reactor_init_reactor r :
  pni_record_get_reactor (pni_record_init_reactor r) = true.
Proof.
  unfold pni_record_get_reactor, pni_record_init_reactor.
  now rewrite get_set_same by apply has_def_same.
Qed.

Lemma get_reactor_set_handler r h :
  pni_record_get_reactor (pn_record_set_handler r h) = pni_record_get_reactor r.
Proof.
  unfold pni_record_get_reactor, pn_record_set_handler.
  rewrite get_set_other by discriminate.
  now rewrite get_def_other by discriminate.
Qed.

(** X10.  The handler and the reactor attached to a record: what
    [pn_record_set_handler] stores is what [pn_record_get_handler] reads,
    the last store winning; [pni_record_init_reactor] makes
    [pni_record_get_reactor] find the reactor; neither touches the other's
    key nor the termination marker; and a record that was never written
    yields [NULL] for both. *)
Theorem record_handler_round_trip :
  forall r h,
    pn_record_get_handler (pn_record_set_handler r h) = h
    /\ (forall h',
           pn_record_get_handler
             (pn_record_set_handler (pn_record_set_handler r h) h') = h')
    /\ pni_record_get_reactor (pni_record_init_reactor r) = true
    /\ pni_record_get_reactor (pn_record_set_handler r h)
       = pni_record_get_reactor r
    /\ pn_record_get_handler (pni_record_init_reactor r)
       = pn_record_get_handler r
    /\ pn_record_has (pn_record_set_handler r h) PNI_TERMINATED
       = pn_record_has r PNI_TERMINATED
    /\ pn_record_has (pni_record_init_reactor r) PNI_TERMINATED
       = pn_record_has r PNI_TERMINATED
    /\ pn_record_get_handler pn_record = None
    /\ pni_record_get_reactor pn_record = false.
Proof.
  intros r h.
  split; [apply get_handler_set_handler|].
  split; [intros h'; apply get_handler_set_handler|].
  split; [apply get_reactor_init_reactor|].
  split; [apply get_reactor_set_handler|].
  split; [apply get_handler_init_reactor|].
  split; [|split; [|split; reflexivity]].
  - unfold pn_record_set_handler.
    rewrite has_set. now rewrite has_def_other by discriminate.
  - unfold pni_record_init_reactor.
    rewrite has_set. now rewrite has_def_other by discriminate.
Qed.

(** *** Scheduling *)

Lemma timer_insert_length d task t :
  length (timer_insert d task t) = S (length t).
Proof.
  induction t as [|[d' k] t IH]; simpl; auto.
  destruct (d <? d')%Z; simpl; auto.
Qed.

Lemma timer_insert_in d task t : In (d, task) (timer_insert d task t).
Proof.
  induction t as [|[d' k] t IH]; simpl; auto.
  destruct (d <? d')%Z; simpl; auto.
Qed.

(** The state [pn_reactor_schedule] reaches before it looks at the timer
    selectable. *)
Lemma schedule_unfold delay h w :
  let w1 :=
    upd_task (length (tasks w)) (fun r => pn_record_set_handler r h)
      (upd_task (length (tasks w)) pni_record_init_reactor
         (fst (pn_timer_schedule (now (reactor w) + delay)%Z w))) in
  pn_reactor_schedule delay h w
  = (match selectable (reactor w) with
     | Some sel =>
         pn_reactor_update sel
           (pn_selectable_set_deadline sel
              (pn_timer_deadline (timer (reactor w1))) w1)
     | None => w1
     end,
     length (tasks w)).
Proof.
  unfold pn_reactor_schedule, pn_timer_schedule. cbv zeta iota. unfold fst.
  simpl selectable.
  destruct (selectable (reactor w)); reflexivity.
Qed.

(** X11.  [pn_reactor_schedule] creates a new task, due [delay] after the
    reactor's [now], with the reactor and the handler attached to it.  From
    then on the timer holds one task more, so [pni_reactor_more] is true;
    and the [PN_TIMER_TASK] event of that task belongs to the reactor and
    goes to the handler given (to the default one when it is [NULL]). *)
Theorem schedule_registers_the_task :
  forall delay h w,
    let w' := fst (pn_reactor_schedule delay h w) in
    let task := snd (pn_reactor_schedule delay h w) in
    let event := mkEvent (ObjTask task) PN_TIMER_TASK in
    task = length (tasks w)
    /\ In ((now (reactor w) + delay)%Z, task) (timer (reactor w'))
    /\ pn_timer_tasks (timer (reactor w'))
       = (pn_timer_tasks (timer (reactor w)) + 1)%Z
    /\ pni_reactor_more w' = true
    /\ pn_record_get_handler (pn_task_attachments w' task) = h
    /\ pni_record_get_reactor (pn_task_attachments w' task) = true
    /\ pn_event_reactor w' event = true
    /\ forall d,
        pn_event_handler w' event d
        = match h with Some n => Some n | None => d end.
Proof.
  intros delay h w w' task event.
  pose proof (schedule_unfold delay h w) as U. cbv zeta in U.
  set (w1 := upd_task (length (tasks w)) (fun r => pn_record_set_handler r h)
               (upd_task (length (tasks w)) pni_record_init_reactor
                  (fst (pn_timer_schedule (now (reactor w) + delay)%Z w))))
    in U.
  assert (Ht : task = length (tasks w)) by (unfold task; now rewrite U).
  assert (Tk : tasks w' = tasks w1 /\ timer (reactor w') = timer (reactor w1)).
  { unfold w'. rewrite U. unfold fst.
    destruct (selectable (reactor w)) as [sel|]; [|split; reflexivity].
    destruct (untouched_update sel
                (pn_selectable_set_deadline sel
                   (pn_timer_deadline (timer (reactor w1))) w1))
      as (_ & _ & _ & _ & T5 & _ & _ & _ & T9 & _).
    split; [exact T9|exact T5]. }
  destruct Tk as [Tk Tm].
  assert (Ti : timer (reactor w1)
               = timer_insert (now (reactor w) + delay)%Z (length (tasks w))
                   (timer (reactor w))) by reflexivity.
  assert (At : pn_task_attachments w' task
               = pn_record_set_handler (pni_record_init_reactor pn_record) h).
  { unfold pn_task_attachments. rewrite Tk, Ht. unfold w1, upd_task. simpl.
    rewrite !nth_error_list_update_same, nth_error_snoc. reflexivity. }
  assert (Len : pn_timer_tasks (timer (reactor w'))
                = (pn_timer_tasks (timer (reactor w)) + 1)%Z).
  { rewrite Tm, Ti. unfold pn_timer_tasks. rewrite timer_insert_length. lia. }
  split; [exact Ht|].
  split; [rewrite Tm, Ti, Ht; apply timer_insert_in|].
  split; [exact Len|].
  split.
  { unfold pni_reactor_more. rewrite Len. unfold pn_timer_tasks.
    apply orb_true_iff. left. apply negb_true_iff, Z.eqb_neq. lia. }
  split; [rewrite At; apply get_handler_set_handler|].
  assert (Gr : pni_record_get_reactor (pn_task_attachments w' task) = true).
  { rewrite At, get_reactor_set_handler. apply get_reactor_init_reactor. }
  split; [exact Gr|]. split; [exact Gr|].
  intros d. rewrite pn_event_handler_unfold.
  change (link_handler w' event) with (@None nat).
  change (session_handler w' event) with (@None nat).
  change (connection_handler w' event) with (@None nat).
  change (context_handler w' event)
    with (pn_record_get_handler (pn_task_attachments w' task)).
  rewrite At, get_handler_set_handler. destruct h; reflexivity.
Qed.

(** *** Binding a connection *)

(** X12.  The pre-dispatch hook of [PN_CONNECTION_INIT] binds the connection
    to the reactor: afterwards the connection's attachments name the
    reactor, and so [pn_event_reactor] finds it for every event on the
    connection, on a session or link of it, or on a delivery of such a
    link.  The hook changes no other connection, nothing of the reactor
    and no handler resolution. *)
Theorem connection_init_binds_the_reactor :
  forall w event c,
    pn_event_type event = PN_CONNECTION_INIT ->
    pn_event_connection w event = Some c ->
    c < length (connections w) ->
    let w1 := pni_reactor_dispatch_pre w event in
    pni_record_get_reactor (pn_connection_attachments w1 c) = true
    /\ (forall e',
           on_connection_path (pn_event_context e') = true ->
           pni_object_connection w (pn_event_context e') = Some c ->
           pn_event_reactor w1 e' = true)
    /\ (forall c', c' <> c ->
                   pn_connection_attachments w1 c'
                   = pn_connection_attachments w c')
    /\ (forall e' d, pn_event_handler w1 e' d = pn_event_handler w e' d)
    /\ reactor w1 = reactor w.
Proof.
  intros w event c Ht Hc L w1.
  assert (W : w1 = upd_connection c pni_record_init_reactor w).
  { unfold w1, pni_reactor_dispatch_pre. now rewrite Ht, Hc. }
  assert (B : pni_record_get_reactor (pn_connection_attachments w1 c) = true).
  { rewrite W. unfold pn_connection_attachments, upd_connection. simpl.
    rewrite nth_error_list_update_same.
    destruct (nth_error (connections w) c) eqn:X; simpl.
    - apply get_reactor_init_reactor.
    - apply nth_error_None in X. lia. }
  split; [exact B|]. split; [|split; [|split]].
  - intros e' P O. unfold pn_event_reactor.
    assert (O1 : pni_object_connection w1 (pn_event_context e') = Some c).
    { rewrite W. exact O. }
    destruct (pn_event_context e'); try discriminate; rewrite O1; exact B.
  - intros c' N. rewrite W.
    unfold pn_connection_attachments, upd_connection. simpl.
    now rewrite nth_error_list_update_other by auto.
  - intros e' d. apply pn_event_handler_pre.
  - apply reactor_pre.
Qed.

(** *** Starting *)

(** X13.  [pn_reactor_start] publishes, in this order, [PN_REACTOR_INIT] for
    the reactor and [PN_SELECTABLE_INIT] and [PN_SELECTABLE_UPDATED] for a
    new selectable, which it keeps as the timer selectable: that
    selectable is the last child, is counted, has the reactor as context,
    the timer's deadline, both callbacks installed, and is neither
    terminal nor marked. *)
Theorem start_registers_the_timer_selectable :
  forall w,
    freed (collector (reactor w)) = false ->
    let w' := pn_reactor_start w in
    let s := length (sels w) in
    events w'
    = events w ++ [mkEvent ObjReactor PN_REACTOR_INIT;
                   mkEvent (ObjSelectable s) PN_SELECTABLE_INIT;
                   mkEvent (ObjSelectable s) PN_SELECTABLE_UPDATED]
    /\ selectable (reactor w') = Some s
    /\ children (reactor w') = children (reactor w) ++ [s]
    /\ selectables (reactor w') = (selectables (reactor w) + 1)%Z
    /\ nth_error (sels w') s
       = Some (mkSelectable false (pn_timer_deadline (timer (reactor w)))
                 pn_record (Some ObjReactor) true
                 (Some cb_pni_selectable_release) (Some cb_pni_timer_expired))
    /\ pni_reactor w' s = true.
Proof.
  intros w F w' s.
  set (w0 := reactor_put ObjReactor PN_REACTOR_INIT w).
  assert (F0 : freed (collector (reactor w0)) = false).
  { unfold w0. now rewrite freed_reactor_put. }
  assert (E0 : events w0 = events w ++ [mkEvent ObjReactor PN_REACTOR_INIT]).
  { unfold w0. now rewrite events_reactor_put, F. }
  destruct (selectable_registered w0 F0) as (Hs & E1 & (L1 & F1) & M1 & T1).
  change (length (sels w0)) with s in Hs, E1, L1, M1, T1.
  set (w1 := fst (pn_reactor_selectable w0)) in *.
  set (w2 := pn_selectable_set_deadline s (pn_timer_deadline (timer (reactor w1)))
               (upd_sel s (set_sel_on_expired (Some cb_pni_timer_expired)) w1)).
  assert (X2 : nth_error (sels w2) s
               = Some (mkSelectable false (pn_timer_deadline (timer (reactor w)))
                         pn_record (Some ObjReactor) true
                         (Some cb_pni_selectable_release)
                         (Some cb_pni_timer_expired))).
  { unfold w2, w1, s, pn_reactor_selectable, pn_selectable_set_deadline.
    simpl.
    rewrite !nth_error_list_update_same, nth_error_snoc. reflexivity. }
  assert (W : w' = upd_reactor (set_selectable (Some s)) (pn_reactor_update s w2)).
  { unfold w', pn_reactor_start, pni_timer_selectable. cbv zeta. fold w0.
    unfold w2, w1. destruct (pn_reactor_selectable w0) as [wa sa] eqn:R.
    simpl fst. simpl in Hs. subst sa. reflexivity. }
  assert (U : pn_reactor_update s w2
              = reactor_put (ObjSelectable s) PN_SELECTABLE_UPDATED w2).
  { unfold pn_reactor_update. rewrite X2. reflexivity. }
  rewrite W, U.
  split; [|split; [reflexivity|split; [reflexivity|split; [reflexivity|split]]]].
  - change (events (upd_reactor (set_selectable (Some s))
                      (reactor_put (ObjSelectable s) PN_SELECTABLE_UPDATED w2)))
      with (events (reactor_put (ObjSelectable s) PN_SELECTABLE_UPDATED w2)).
    rewrite events_reactor_put.
    change (freed (collector (reactor w2)))
      with (freed (collector (reactor w1))).
    rewrite F1. change (events w2) with (events w1).
    rewrite E1, E0. now rewrite <- !app_assoc.
  - exact X2.
  - unfold pni_reactor.
    change (sels (upd_reactor (set_selectable (Some s))
                    (reactor_put (ObjSelectable s) PN_SELECTABLE_UPDATED w2)))
      with (sels w2).
    rewrite X2. reflexivity.
Qed.

(** *** Timer expiry *)

Lemma put_tasks_fold ks : forall w,
  freed (collector (reactor w)) = false ->
  let w' := fold_left (fun w k => reactor_put (ObjTask k) PN_TIMER_TASK w) ks w in
  events w' = events w ++ map (fun k => mkEvent (ObjTask k) PN_TIMER_TASK) ks
  /\ freed (collector (reactor w')) = false
  /\ sels w' = sels w
  /\ timer (reactor w') = timer (reactor w)
  /\ now (reactor w') = now (reactor w).
Proof.
  induction ks as [|k ks IH]; intros w F; simpl.
  - rewrite app_nil_r. auto.
  - assert (F1 : freed (collector (reactor (reactor_put (ObjTask k) PN_TIMER_TASK w)))
                 = false) by now rewrite freed_reactor_put.
    destruct (IH _ F1) as (E & F2 & S2 & T2 & N2).
    rewrite E, events_reactor_put, F, <- app_assoc.
    repeat split; auto.
Qed.

Lemma matured_pending now0 t : timer_matured now0 (timer_pending now0 t) = [].
Proof.
  induction t as [|[d k] t IH]; simpl; auto.
  destruct (d <=? now0)%Z eqn:E; auto.
  simpl. now rewrite E.
Qed.

(** X14.  [pni_timer_expired], run on the reactor's own selectable while it
    is neither terminal nor marked, publishes one [PN_TIMER_TASK] per task
    that is due at the reactor's [now], then one [PN_SELECTABLE_UPDATED]
    for the selectable; it leaves the selectable with the timer's next
    deadline, and no due task behind. *)
Theorem timer_expiry_publishes_tasks_then_update :
  forall w sel x,
    freed (collector (reactor w)) = false ->
    nth_error (sels w) sel = Some x ->
    sel_context x = Some ObjReactor ->
    sel_terminal x = false ->
    pn_record_has (sel_attachments x) PNI_TERMINATED = false ->
    let w' := pni_timer_expired sel w in
    let due := timer_matured (now (reactor w)) (timer (reactor w)) in
    events w'
    = events w ++ map (fun k => mkEvent (ObjTask k) PN_TIMER_TASK) due
        ++ [mkEvent (ObjSelectable sel) PN_SELECTABLE_UPDATED]
    /\ timer (reactor w')
       = timer_pending (now (reactor w)) (timer (reactor w))
    /\ timer_matured (now (reactor w')) (timer (reactor w')) = []
    /\ nth_error (sels w') sel
       = Some (set_sel_deadline (pn_timer_deadline (timer (reactor w'))) x).
Proof.
  intros w sel x F X C T M w' due.
  set (w0 := upd_reactor
               (set_timer (timer_pending (now (reactor w)) (timer (reactor w)))) w).
  destruct (@put_tasks_fold due w0 F) as (E & F1 & S1 & T1 & N1).
  cbv zeta in E, F1, S1, T1, N1.
  set (w1 := fold_left (fun w k => reactor_put (ObjTask k) PN_TIMER_TASK w) due w0)
    in *.
  set (w2 := pn_selectable_set_deadline sel (pn_timer_deadline (timer (reactor w1)))
               w1).
  assert (X2 : nth_error (sels w2) sel
               = Some (set_sel_deadline (pn_timer_deadline (timer (reactor w1))) x)).
  { unfold w2, pn_selectable_set_deadline, upd_sel. simpl.
    rewrite nth_error_list_update_same, S1.
    change (sels w0) with (sels w). now rewrite X. }
  assert (W : w' = reactor_put (ObjSelectable sel) PN_SELECTABLE_UPDATED w2).
  { unfold w', pni_timer_expired, pni_reactor. rewrite X. simpl obind.
    rewrite C. cbv zeta.
    change (pn_timer_tick (now (reactor w)) w) with w1. fold w2.
    unfold pn_reactor_update. rewrite X2. simpl. now rewrite M, T. }
  rewrite W.
  split; [|split; [exact T1|split; [|exact X2]]].
  - rewrite events_reactor_put.
    change (freed (collector (reactor w2))) with (freed (collector (reactor w1))).
    rewrite F1. change (events w2) with (events w1). rewrite E.
    now rewrite <- app_assoc.
  - change (timer_matured (now (reactor w1)) (timer (reactor w1)) = []).
    rewrite T1, N1. apply matured_pending.
Qed.

End Reactor.

(** ** The scenarios, run *)

Lemma noop_handlers_append_only : handlers_append_only noop_dispatch noop_final.
Proof.
  split; intros; exists []; now rewrite app_nil_r.
Qed.

Lemma noop_handlers_never_quiesce :
  handlers_never_quiesce noop_dispatch noop_final.
Proof.
  split; intros; exists []; now rewrite app_nil_r.
Qed.



(** Why C1 asks something of the handlers before it promises a return: a
    handler that publishes an event each time it is invoked keeps the loop
    busy for ever. *)
Lemma recording_dispatch_frame h e w :
  freed (collector (reactor w)) = false ->
  freed (collector (reactor (recording_dispatch h e w))) = false
  /\ yield (reactor (recording_dispatch h e w)) = yield (reactor w)
  /\ global (reactor (recording_dispatch h e w)) = global (reactor w)
  /\ exists l,
      events (recording_dispatch h e w) = events w ++ l
      /\ (h <> None -> l <> []).
Proof.
  intros F. destruct h as [n|]; unfold recording_dispatch.
  - rewrite freed_reactor_put, events_reactor_put, F.
    repeat split; auto. eexists. split; [reflexivity|]. discriminate.
  - repeat split; auto. exists []. split; [now rewrite app_nil_r|congruence].
Qed.

Lemma recording_turn_goes_on p w :
  events w <> [] ->
  yield (reactor w) = false ->
  freed (collector (reactor w)) = false ->
  global (reactor w) = Some 0 ->
  exists p' w' l,
    process_turn recording_dispatch noop_final p w = Continue p' w' l
    /\ events w' <> []
    /\ yield (reactor w') = false
    /\ freed (collector (reactor w')) = false
    /\ global (reactor w') = Some 0.
Proof.
  intros E Y F G.
  destruct (events w) as [|e q] eqn:Hq; [congruence|].
  unfold process_turn. rewrite (peek_events w Hq), Y.
  set (w1 := pni_reactor_dispatch_pre (upd_reactor (set_yield false) w) e).
  set (h := pn_event_handler w1 e (handler (reactor w1))).
  set (w2 := recording_dispatch h e w1).
  set (w3 := recording_dispatch (global (reactor w2)) e w2).
  assert (R1 : reactor w1 = reactor (upd_reactor (set_yield false) w))
    by apply reactor_pre.
  assert (F1 : freed (collector (reactor w1)) = false) by (now rewrite R1).
  assert (E1 : events w1 = e :: q).
  { unfold w1. rewrite events_pre. exact Hq. }
  destruct (recording_dispatch_frame h e w1 F1) as (F2 & Y2 & G2 & l2 & E2 & _).
  fold w2 in F2, Y2, G2, E2.
  assert (G2' : global (reactor w2) = Some 0) by (now rewrite G2, R1).
  destruct (recording_dispatch_frame (global (reactor w2)) e w2 F2)
    as (F3 & Y3 & G3 & l3 & E3 & N3).
  fold w3 in F3, Y3, G3, E3.
  assert (P : pni_reactor_dispatch_post noop_final w3 e = w3).
  { unfold pni_reactor_dispatch_post. destruct (pn_event_type e); reflexivity. }
  rewrite P.
  eexists. eexists. eexists. split; [reflexivity|].
  split; [|split; [|split]].
  - change (tl (events w3) <> []).
    rewrite E3, E2, E1. simpl.
    assert (L : l3 <> []) by (apply N3; rewrite G2'; discriminate).
    destruct l3; [congruence|]. intros X.
    apply app_eq_nil in X. destruct X as [_ X]. discriminate.
  - change (yield (reactor w3) = false). rewrite Y3, Y2, R1. reflexivity.
  - exact F3.
  - change (global (reactor w3) = Some 0). now rewrite G3.
Qed.

Lemma requeueing_handlers_never_return :
  forall fuel,
    pn_reactor_process recording_dispatch noop_final fuel started = None.
Proof.
  intros fuel. unfold pn_reactor_process.
  assert (I : events (pn_reactor_mark started) <> []
              /\ yield (reactor (pn_reactor_mark started)) = false
              /\ freed (collector (reactor (pn_reactor_mark started))) = false
              /\ global (reactor (pn_reactor_mark started)) = Some 0).
  { repeat split. vm_compute. discriminate. }
  revert I. generalize (pn_reactor_mark started) PN_EVENT_NONE (@nil obs).
  induction fuel as [|fuel IH]; intros w p log (E & Y & F & G); [reflexivity|].
  simpl.
  destruct (@recording_turn_goes_on p w E Y F G)
    as (p' & w' & l & T & E' & Y' & F' & G').
  rewrite T. apply IH. auto.
Qed.

(** C2, on a run: an event on a link whose session and connection carry
    handlers too, with handlers that each leave a mark.  After the turn the
    event is gone and the marks are those of the link's handler and of the
    global one, in this order; the session's and the connection's
    handlers have left none. *)
Lemma handler_resolution_witness :
  pn_event_handler with_link link_event (Some 1) = Some 12
  /\ exists w' log,
      process_turn recording_dispatch noop_final PN_EVENT_NONE
        (reactor_put (ObjLink 0) (PN_EVENT_OTHER 7) with_link)
      = Continue (PN_EVENT_OTHER 7) w' log
      /\ invoked log = [(Some 12, link_event); (Some 0, link_event)]
      /\ events w'
         = [mkEvent ObjReactor (PN_EVENT_OTHER 12);
            mkEvent ObjReactor (PN_EVENT_OTHER 0)].
Proof.
  destruct (handler_resolution_most_specific_first recording_dispatch
              noop_final)
    as (R1 & _ & _ & _ & _ & R6).
  split.
  - apply R1. reflexivity.
  - destruct (R6 PN_EVENT_NONE
                (reactor_put (ObjLink 0) (PN_EVENT_OTHER 7) with_link)
                link_event eq_refl eq_refl)
      as (log & T & _ & L).
    eexists. exists log. split; [exact T|].
    split; [exact (proj2 (L 12 eq_refl))|].
    vm_compute. reflexivity.
Defined.

Lemma releasing_handlers_keep_lifecycle :
  handlers_keep_lifecycle releasing_dispatch noop_final.
Proof.
  split.
  - intros s h e w. unfold releasing_dispatch.
    destruct h as [[|n]|]; try apply keeps_refl.
    destruct (pn_event_type e); try apply keeps_refl.
    destruct (pn_event_context e); try apply keeps_refl.
    apply quiet_keeps, quiet_release.
  - intros s e w. apply keeps_refl.
Qed.

(** C3, on two runs.  A selectable that is registered, updated, terminated
    and updated twice more publishes INIT, UPDATED, FINAL.  The timer
    selectable of a started reactor has published INIT and UPDATED; one
    call of the loop, with the handler that releases a selectable on its
    [PN_SELECTABLE_FINAL], ends it: the loop publishes its FINAL and sets
    the marker. *)
Lemma selectable_event_sequence_witness :
  (let ops := [CallUpdate 0; CallTerminate 0; CallUpdate 0; CallUpdate 0] in
   let w1 := fst (pn_reactor_selectable (pn_reactor_initialize 0)) in
   events_of_selectable 0 (events (exec_all ops w1))
   = [PN_SELECTABLE_INIT; PN_SELECTABLE_UPDATED; PN_SELECTABLE_FINAL]
   /\ exists l,
       events (exec_all ops w1) = events w1 ++ l
       /\ lifecycle_invariant 0
            ([PN_SELECTABLE_INIT] ++ events_of_selectable 0 l)
            (exec_all ops w1))
  /\ exists w' log added,
      pn_reactor_process releasing_dispatch noop_final 6 started
      = Some (false, w', log)
      /\ dispatched log ++ events w' = events started ++ added
      /\ selectable_terminated w' 0 = true
      /\ lifecycle_invariant 0
           ([PN_SELECTABLE_INIT; PN_SELECTABLE_UPDATED]
              ++ events_of_selectable 0 added) w'.
Proof.
  destruct (selectable_event_sequence releasing_dispatch noop_final)
    as (Reg & _ & Keep & _).
  split.
  - intros ops w1. split; [reflexivity|].
    destruct (Reg (pn_reactor_initialize 0) eq_refl) as (_ & K).
    exact (proj1 (proj2 (Keep 0 _ _ K)) ops).
  - assert (H : exists w' log,
               pn_reactor_process releasing_dispatch noop_final 6 started
               = Some (false, w', log)
               /\ selectable_terminated w' 0 = true).
    { eexists. eexists. split; vm_compute; reflexivity. }
    destruct H as (w' & log & H & M).
    assert (K : lifecycle_invariant 0
                  [PN_SELECTABLE_INIT; PN_SELECTABLE_UPDATED] started).
    { split; [split; [vm_compute; lia|reflexivity]|].
      split; [intros X; vm_compute in X; discriminate|].
      exists 1. reflexivity. }
    destruct (proj1 (proj2 (proj2 (Keep 0 _ _ K))
                       releasing_handlers_keep_lifecycle 6) _ _ _ H)
      as (added & E & K').
    exists w', log, added. split; [exact H|]. split; [exact E|].
    split; [exact M|exact K'].
Defined.

(** C3 as stated fails once the collector is released: after
    [pn_reactor_stop] a registration publishes no [PN_SELECTABLE_INIT], so
    the events of the new selectable do not start with INIT; and the first
    update of that selectable, made terminal, sets the marker and publishes
    no [PN_SELECTABLE_FINAL]. *)
Lemma registration_after_stop_publishes_no_init :
  exists w log,
    pn_reactor_stop noop_dispatch noop_final 9 started = Some (w, log)
    /\ let w1 := fst (pn_reactor_selectable w) in
       let s := snd (pn_reactor_selectable w) in
       let w2 := pn_reactor_update s (pn_selectable_terminate s w1) in
       s = 1
       /\ events_of_selectable s (dispatched log ++ events w1) = []
       /\ selectable_lifecycle
            (events_of_selectable s (dispatched log ++ events w1)) = false
       /\ pn_selectable_is_terminal (pn_selectable_terminate s w1) s = true
       /\ selectable_terminated (pn_selectable_terminate s w1) s = false
       /\ events w2 = []
       /\ selectable_terminated w2 s = true.
Proof.
  eexists. eexists. split; [vm_compute; reflexivity|].
  vm_compute. repeat split.
Qed.

(** C4, on a run: the first event of a started reactor. *)
Lemma dispatch_order_witness :
  let e := mkEvent ObjReactor PN_REACTOR_INIT in
  exists w',
    process_turn noop_dispatch noop_final PN_EVENT_NONE started
    = Continue PN_REACTOR_INIT w'
        [ObsPre e; ObsDispatch (Some 1) e; ObsDispatch (Some 0) e;
         ObsPost e; ObsPop (Some e)]
    /\ events w'
       = [mkEvent (ObjSelectable 0) PN_SELECTABLE_INIT;
          mkEvent (ObjSelectable 0) PN_SELECTABLE_UPDATED].
Proof.
  intros e.
  destruct (dispatch_order_for_one_event noop_dispatch noop_final
              PN_EVENT_NONE started (event := e) eq_refl eq_refl)
    as ((w' & popped & T & Hp & E & _) & H).
  destruct (H noop_handlers_append_only) as (_ & _ & _ & P4).
  exists w'. split.
  - rewrite T, Hp, P4. reflexivity.
  - rewrite E. reflexivity.
Defined.

(** C5, on a run: with a second selectable registered the first call ends
    quiesced, after one [PN_REACTOR_QUIESCED]. *)
Lemma quiesced_guards_witness :
  exists w' log,
    pn_reactor_process noop_dispatch noop_final 8 started_with_selectable
    = Some (true, w', log)
    /\ dispatched_types log
       = [PN_REACTOR_INIT; PN_SELECTABLE_INIT; PN_SELECTABLE_UPDATED;
          PN_SELECTABLE_INIT; PN_REACTOR_QUIESCED]
    /\ quiesced_not_adjacent (dispatched_types log) = true
    /\ quiesced_not_after_final (PN_EVENT_NONE :: dispatched_types log) = true.
Proof.
  assert (H : exists w' log,
             pn_reactor_process noop_dispatch noop_final 8
               started_with_selectable = Some (true, w', log)
             /\ dispatched_types log
                = [PN_REACTOR_INIT; PN_SELECTABLE_INIT; PN_SELECTABLE_UPDATED;
                   PN_SELECTABLE_INIT; PN_REACTOR_QUIESCED]).
  { eexists. eexists. split; [vm_compute; reflexivity|reflexivity]. }
  destruct H as (w' & log & H & D).
  exists w', log. split; [exact H|]. split; [exact D|].
  destruct (quiesced_guards_within_a_call noop_handlers_never_quiesce
              8 started_with_selectable eq_refl (fun _ => eq_refl) H)
    as (A & B & _).
  split; [exact A|exact B].
Defined.

(** C5 as stated fails: two calls in a row, nothing happening in between,
    each end with a [PN_REACTOR_QUIESCED] of their own. *)
Lemma quiesced_adjacent_across_calls :
  exists w1 log1 w2 log2,
    pn_reactor_work noop_dispatch noop_final 8 started_with_selectable 1000
    = Some (true, w1, log1)
    /\ pn_reactor_work noop_dispatch noop_final 8 w1 1000 = Some (true, w2, log2)
    /\ dispatched_types (log1 ++ log2)
       = [PN_REACTOR_INIT; PN_SELECTABLE_INIT; PN_SELECTABLE_UPDATED;
          PN_SELECTABLE_INIT; PN_REACTOR_QUIESCED; PN_REACTOR_QUIESCED]
    /\ quiesced_not_adjacent (dispatched_types (log1 ++ log2)) = false.
Proof.
  eexists. eexists. eexists. eexists.
  split; [vm_compute; reflexivity|].
  split; [vm_compute; reflexivity|].
  split; reflexivity.
Qed.

(** A [PN_REACTOR_QUIESCED] can also come later after a [PN_REACTOR_FINAL],
    when a handler creates work once the final event has gone by. *)
Lemma quiesced_later_after_final :
  exists w log,
    pn_reactor_stop rescheduling_dispatch noop_final 10 started = Some (w, log)
    /\ dispatched_types log
       = [PN_REACTOR_INIT; PN_SELECTABLE_INIT; PN_SELECTABLE_UPDATED;
          PN_REACTOR_FINAL; PN_SELECTABLE_FINAL; PN_REACTOR_QUIESCED]
    /\ quiesced_never_after_final (dispatched_types log) = false
    /\ quiesced_not_after_final (dispatched_types log) = true.
Proof.
  eexists. eexists. split; [vm_compute; reflexivity|].
  split; [reflexivity|]. split; reflexivity.
Qed.

(** C6 as stated fails: the empty run dispatches no [PN_REACTOR_QUIESCED],
    it does dispatch a [PN_SELECTABLE_UPDATED], and both calls of
    [pn_reactor_process] return [false]. *)
Lemma empty_run_is_not_the_stated_trace :
  exists w log,
    pn_reactor_run noop_dispatch noop_final 2 8 (pn_reactor_initialize 0)
    = Some (w, log)
    /\ dispatched_types log
       <> [PN_REACTOR_INIT; PN_SELECTABLE_INIT; PN_REACTOR_QUIESCED;
           PN_SELECTABLE_FINAL; PN_REACTOR_FINAL]
    /\ ~ In PN_REACTOR_QUIESCED (dispatched_types log)
    /\ returned log <> [true; false].
Proof.
  eexists. eexists. split; [vm_compute; reflexivity|].
  split; [discriminate|]. split; [|discriminate].
  simpl. intros [H|[H|[H|[H|[H|[]]]]]]; discriminate.
Qed.

(** C6 (as amended).  The empty run, [start(); while (work(1000)) {}; stop()]
    on a fresh reactor whose handlers do nothing, dispatches
    [PN_REACTOR_INIT], [PN_SELECTABLE_INIT], [PN_SELECTABLE_UPDATED],
    [PN_SELECTABLE_FINAL], [PN_REACTOR_FINAL] in this order and no
    [PN_REACTOR_QUIESCED]; [pn_reactor_process] is called twice, once from
    the work loop and once from stop, and returns [false] both times.  The
    same holds when the global handler releases the timer selectable on its
    [PN_SELECTABLE_FINAL]. *)
Theorem empty_run_trace :
  forall clk rounds fuel,
    (exists w log,
        pn_reactor_run noop_dispatch noop_final (S rounds) (6 + fuel)
          (pn_reactor_initialize clk) = Some (w, log)
        /\ dispatched_types log
           = [PN_REACTOR_INIT; PN_SELECTABLE_INIT; PN_SELECTABLE_UPDATED;
              PN_SELECTABLE_FINAL; PN_REACTOR_FINAL]
        /\ returned log = [false; false]
        /\ events w = [] /\ freed (collector (reactor w)) = true)
    /\ (exists w log,
           pn_reactor_run releasing_dispatch noop_final (S rounds) (6 + fuel)
             (pn_reactor_initialize clk) = Some (w, log)
           /\ dispatched_types log
              = [PN_REACTOR_INIT; PN_SELECTABLE_INIT; PN_SELECTABLE_UPDATED;
                 PN_SELECTABLE_FINAL; PN_REACTOR_FINAL]
           /\ returned log = [false; false]
           /\ events w = [] /\ freed (collector (reactor w)) = true).
Proof.
  intros clk rounds fuel. split.
  - eexists. eexists. split; [vm_compute; reflexivity|].
    vm_compute. repeat split.
  - eexists. eexists. split; [vm_compute; reflexivity|].
    vm_compute. repeat split.
Qed.

(** C7 as stated fails: with a yield pending, the first [pn_reactor_stop]
    enqueues [PN_REACTOR_FINAL], returns from [pn_reactor_process] at once
    and releases the collector, so the event is never dispatched; and the
    second call is no no-op, it ends the timer selectable. *)
Lemma stop_with_yield_pending_drops_final :
  exists w1 log1 w2 log2,
    pn_reactor_stop noop_dispatch noop_final 8 started_then_yield
    = Some (w1, log1)
    /\ pn_reactor_stop noop_dispatch noop_final 8 w1 = Some (w2, log2)
    /\ In (mkEvent ObjReactor PN_REACTOR_FINAL)
          (events (reactor_put ObjReactor PN_REACTOR_FINAL started_then_yield))
    /\ count_occ pn_event_type_eq_dec (dispatched_types (log1 ++ log2))
         PN_REACTOR_FINAL = 0
    /\ selectable (reactor w1) = Some 0
    /\ selectable (reactor w2) = None
    /\ selectable_terminated w1 0 = false
    /\ selectable_terminated w2 0 = true.
Proof.
  eexists. eexists. eexists. eexists.
  split; [vm_compute; reflexivity|].
  split; [vm_compute; reflexivity|].
  split; [vm_compute; tauto|].
  repeat split.
Qed.

(** The same loss within one call: the root handler yields on
    [PN_REACTOR_INIT], and the stop that follows the start dispatches that
    event only. *)
Lemma stop_with_yielding_handler_drops_final :
  exists w log,
    pn_reactor_stop yielding_dispatch noop_final 8 started = Some (w, log)
    /\ dispatched_types log = [PN_REACTOR_INIT]
    /\ returned log = [true]
    /\ events w = [].
Proof.
  eexists. eexists. split; [vm_compute; reflexivity|]. repeat split.
Qed.

(** C7, on a run: stopping a started reactor drains it, and stopping it
    again does nothing. *)
Lemma second_stop_witness :
  exists w1 log,
    pn_reactor_stop noop_dispatch noop_final 8 started = Some (w1, log)
    /\ dispatched_types log
       = [PN_REACTOR_INIT; PN_SELECTABLE_INIT; PN_SELECTABLE_UPDATED;
          PN_REACTOR_FINAL; PN_SELECTABLE_FINAL]
    /\ pn_reactor_stop noop_dispatch noop_final 1 w1
       = Some (pn_reactor_mark w1, [ObsReturn false]).
Proof.
  assert (H : exists w' log,
             pn_reactor_process noop_dispatch noop_final 8
               (reactor_put ObjReactor PN_REACTOR_FINAL started)
             = Some (false, w', log)
             /\ events w' = []
             /\ dispatched_types log
                = [PN_REACTOR_INIT; PN_SELECTABLE_INIT; PN_SELECTABLE_UPDATED;
                   PN_REACTOR_FINAL; PN_SELECTABLE_FINAL]).
  { eexists. eexists. split; [vm_compute; reflexivity|]. split; reflexivity. }
  destruct H as (w' & log & H & E & D).
  destruct (second_stop_is_a_noop noop_handlers_append_only
              8 started eq_refl H E (or_introl eq_refl))
    as (S1 & _ & S2).
  exists (reactor_release w'), log.
  split; [exact S1|]. split; [exact D|]. apply S2.
Defined.

(** C8, on a run: with a yield pending the call made by stop returns [true]
    at once, four events are still queued, and the release drops them. *)
Lemma stop_releases_witness :
  exists w1 log,
    pn_reactor_process noop_dispatch noop_final 8
      (reactor_put ObjReactor PN_REACTOR_FINAL started_then_yield)
    = Some (true, w1, log)
    /\ length (events w1) = 4
    /\ dispatched log = []
    /\ pn_reactor_stop noop_dispatch noop_final 8 started_then_yield
       = Some (reactor_release w1, log)
    /\ events (reactor_release w1) = [].
Proof.
  assert (H : exists w1 log,
             pn_reactor_process noop_dispatch noop_final 8
               (reactor_put ObjReactor PN_REACTOR_FINAL started_then_yield)
             = Some (true, w1, log)
             /\ length (events w1) = 4
             /\ dispatched log = []).
  { eexists. eexists. split; [vm_compute; reflexivity|]. split; reflexivity. }
  destruct H as (w1 & log & H & L & D).
  exists w1, log. split; [exact H|]. split; [exact L|]. split; [exact D|].
  destruct (stop_releases_unconditionally noop_dispatch noop_final
              8 started_then_yield H)
    as (S1 & S2 & _).
  split; [exact S1|exact S2].
Defined.

(** Why the amended C7 asks how the first call ended: after a stop that
    returned early on a pending yield, with a second selectable registered,
    a second stop never returns.  The collector is released, so the
    [PN_REACTOR_QUIESCED] that would end the call is never queued. *)
Lemma second_stop_can_hang :
  exists w1 log1,
    pn_reactor_stop noop_dispatch noop_final 8
      (pn_reactor_yield started_with_selectable) = Some (w1, log1)
    /\ dispatched log1 = []
    /\ forall fuel, pn_reactor_stop noop_dispatch noop_final fuel w1 = None.
Proof.
  eexists. eexists. split; [vm_compute; reflexivity|]. split; [reflexivity|].
  intros fuel. unfold pn_reactor_stop, pn_reactor_process.
  rewrite released_collector_hangs; try reflexivity; discriminate.
Qed.

(** ** The further properties, run *)

Lemma noop_handlers_never_yield : handlers_never_yield noop_dispatch noop_final.
Proof. split; intros; assumption. Qed.

Lemma noop_handlers_leave_untouched :
  handlers_leave_untouched noop_dispatch noop_final.
Proof. split; intros; apply untouched_refl. Qed.

Lemma noop_handlers_keep_children :
  handlers_keep_children noop_dispatch noop_final.
Proof. split; intros; assumption. Qed.

Lemma yielding_handlers_append_only :
  handlers_append_only yielding_dispatch noop_final.
Proof.
  split; intros; exists []; rewrite app_nil_r; [|reflexivity].
  unfold yielding_dispatch.
  destruct h as [[|[|n]]|]; try reflexivity.
  destruct (pn_event_type e); reflexivity.
Qed.

Lemma initialized_children_ok clk : children_ok (pn_reactor_initialize clk).
Proof.
  unfold children_ok. simpl.
  split; [constructor|]. split; [intros c []|reflexivity].
Qed.

Lemma started_children_ok : children_ok started.
Proof. apply children_start, initialized_children_ok. Qed.

Lemma started_with_selectable_children_ok : children_ok started_with_selectable.
Proof. apply children_selectable, started_children_ok. Qed.

(** X1, on a run: the five events the call dispatches are the four that
    waited, then the [PN_REACTOR_QUIESCED] the loop added. *)
Lemma process_dispatches_in_queue_order_witness :
  exists w' log added,
    pn_reactor_process noop_dispatch noop_final 8 started_with_selectable
    = Some (true, w', log)
    /\ length (dispatched log) = 5
    /\ dispatched log ++ events w' = events started_with_selectable ++ added.
Proof.
  assert (H : exists w' log,
             pn_reactor_process noop_dispatch noop_final 8
               started_with_selectable = Some (true, w', log)
             /\ length (dispatched log) = 5).
  { eexists. eexists. split; [vm_compute; reflexivity|reflexivity]. }
  destruct H as (w' & log & H & L).
  destruct (process_dispatches_in_queue_order noop_handlers_append_only
              8 started_with_selectable H) as [added E].
  exists w', log, added. auto.
Defined.

(** X2, on a run: one call on a started reactor leaves no event behind. *)
Lemma process_drains_without_yield_witness :
  exists w' log added,
    pn_reactor_process noop_dispatch noop_final 6 started = Some (false, w', log)
    /\ events w' = []
    /\ yield (reactor w') = false
    /\ dispatched log = events started ++ added.
Proof.
  assert (H : exists w' log,
             pn_reactor_process noop_dispatch noop_final 6 started
             = Some (false, w', log)).
  { eexists. eexists. vm_compute. reflexivity. }
  destruct H as (w' & log & H).
  destruct (process_drains_without_yield noop_handlers_append_only
              noop_handlers_never_yield 6 started eq_refl H)
    as (E & Y & added & D).
  exists w', log, added. auto.
Defined.

(** X3, on a run: the call that ends quiesced leaves
    [PN_REACTOR_QUIESCED] as the previous type. *)
Lemma previous_is_last_dispatched_witness :
  exists w' log,
    pn_reactor_process noop_dispatch noop_final 8 started_with_selectable
    = Some (true, w', log)
    /\ last (dispatched_types log) PN_EVENT_NONE = PN_REACTOR_QUIESCED
    /\ previous (reactor w') = PN_REACTOR_QUIESCED.
Proof.
  assert (H : exists w' log,
             pn_reactor_process noop_dispatch noop_final 8
               started_with_selectable = Some (true, w', log)
             /\ last (dispatched_types log) PN_EVENT_NONE = PN_REACTOR_QUIESCED).
  { eexists. eexists. split; [vm_compute; reflexivity|reflexivity]. }
  destruct H as (w' & log & H & L).
  exists w', log. split; [exact H|]. split; [exact L|].
  rewrite (previous_is_last_dispatched noop_dispatch noop_final
             8 started_with_selectable H).
  exact L.
Defined.

(** X4, on a run: the root handler yields on [PN_REACTOR_INIT]; the call
    returns with the two selectable events still waiting. *)
Lemma yield_cuts_between_events_witness :
  exists w' log rest,
    pn_reactor_process yielding_dispatch noop_final 2 started
    = Some (true, w', log)
    /\ dispatched log = [mkEvent ObjReactor PN_REACTOR_INIT]
    /\ events w' = mkEvent (ObjSelectable 0) PN_SELECTABLE_INIT :: rest
    /\ yield (reactor w') = false.
Proof.
  apply (@yield_cuts_between_events yielding_dispatch noop_final
           yielding_handlers_append_only 0 started
           (mkEvent ObjReactor PN_REACTOR_INIT)
           (mkEvent (ObjSelectable 0) PN_SELECTABLE_INIT)
           [mkEvent (ObjSelectable 0) PN_SELECTABLE_UPDATED]
           eq_refl eq_refl eq_refl).
Defined.

(** X5, on two runs.  A yield called on a new reactor with one task
    scheduled: the call returns [true] with [PN_REACTOR_QUIESCED] waiting.
    A yield called after the second selectable of a quiesced reactor was
    released: the call returns [true] with the [PN_SELECTABLE_FINAL] of the
    timer selectable waiting. *)
Lemma pending_yield_on_empty_queue_witness :
  let w1 :=
    pn_reactor_yield (fst (pn_reactor_schedule 10 None (pn_reactor_initialize 0))) in
  let w2 :=
    match pn_reactor_process noop_dispatch noop_final 8 started_with_selectable with
    | Some (_, w, _) => pn_reactor_yield (pni_selectable_release 1 w)
    | None => started
    end in
  (exists w',
      pn_reactor_process noop_dispatch noop_final 2 w1
      = Some (true, w', [ObsReturn true])
      /\ events w' = [mkEvent ObjReactor PN_REACTOR_QUIESCED]
      /\ yield (reactor w') = false)
  /\ (exists w',
         pn_reactor_process noop_dispatch noop_final 2 w2
         = Some (true, w', [ObsReturn true])
         /\ events w' = [mkEvent (ObjSelectable 0) PN_SELECTABLE_FINAL]
         /\ yield (reactor w') = false
         /\ pni_reactor_more w' = false
         /\ selectable (reactor w') = None).
Proof.
  intros w1 w2. split.
  - apply (proj1 (@pending_yield_on_empty_queue noop_dispatch noop_final
                    0 w1 eq_refl eq_refl eq_refl)).
    + reflexivity.
    + discriminate.
  - assert (E : events w2 = []) by (vm_compute; reflexivity).
    assert (Y : yield (reactor w2) = true) by (vm_compute; reflexivity).
    assert (F : freed (collector (reactor w2)) = false)
      by (vm_compute; reflexivity).
    apply (proj2 (@pending_yield_on_empty_queue noop_dispatch noop_final
                    0 w2 E Y F) 0).
    + vm_compute. reflexivity.
    + vm_compute. reflexivity.
    + vm_compute. lia.
    + vm_compute. reflexivity.
Defined.

(** X6, on a run: a started reactor worked with a timeout of 1000. *)
Lemma work_keeps_the_frame_witness :
  exists b w' log,
    pn_reactor_work noop_dispatch noop_final 6 started 1000 = Some (b, w', log)
    /\ pn_reactor_timeout w' = 1000%Z
    /\ now (reactor w') = clock started
    /\ pni_reactor_more w' = pni_reactor_more started
    /\ untouched (pn_reactor_mark (upd_reactor (set_timeout 1000) started)) w'.
Proof.
  assert (H : exists b w' log,
             pn_reactor_work noop_dispatch noop_final 6 started 1000
             = Some (b, w', log)).
  { eexists. eexists. eexists. vm_compute. reflexivity. }
  destruct H as (b & w' & log & H).
  exists b, w', log. split; [exact H|].
  exact (work_keeps_the_frame noop_handlers_leave_untouched
           6 started 1000%Z H).
Defined.

(** X7, on a run: a reactor with two selectables, after it was stopped. *)
Lemma children_counter_invariant_witness :
  exists w' log,
    pn_reactor_stop noop_dispatch noop_final 9 started_with_selectable
    = Some (w', log)
    /\ children_ok w'.
Proof.
  assert (H : exists w' log,
             pn_reactor_stop noop_dispatch noop_final 9 started_with_selectable
             = Some (w', log)).
  { eexists. eexists. vm_compute. reflexivity. }
  destruct H as (w' & log & H).
  exists w', log. split; [exact H|].
  destruct (children_counter_invariant noop_dispatch noop_final)
    as (I & S & C & P).
  apply (proj2 (P noop_handlers_keep_children 9 started_with_selectable
                  (C [CallSelectable] _ (S _ (I 0%Z)))) w' log H).
Defined.

(** X8, on a run: the second selectable of a started reactor, released
    twice. *)
Lemma release_twice_is_release_once_witness :
  pni_selectable_release 1 (pni_selectable_release 1 started_with_selectable)
  = pni_selectable_release 1 started_with_selectable
  /\ children (reactor (pni_selectable_release 1 started_with_selectable)) = [0].
Proof.
  split; [|reflexivity].
  apply (release_twice_is_release_once 1 started_with_selectable_children_ok).
Defined.

(** X9, on a run: a selectable registered on a started reactor and released
    again. *)
Lemma register_then_release_witness :
  let w1 := fst (pn_reactor_selectable started) in
  In 1 (children (reactor w1))
  /\ selectables (reactor w1) = 2%Z
  /\ children (reactor (pni_selectable_release 1 w1)) = [0]
  /\ selectables (reactor (pni_selectable_release 1 w1)) = 1%Z
  /\ pni_reactor_more (pni_selectable_release 1 w1) = false.
Proof.
  exact (register_then_release started_children_ok).
Defined.

(** X12, on a run: before [PN_CONNECTION_INIT] is dispatched an event on a
    delivery of the connection has no reactor; the pre-dispatch hook gives
    it one. *)
Lemma connection_init_binds_the_reactor_witness :
  let init := mkEvent (ObjConnection 0) PN_CONNECTION_INIT in
  let e := mkEvent (ObjDelivery 0) (PN_EVENT_OTHER 3) in
  pn_event_reactor with_unbound_connection e = false
  /\ pn_event_reactor (pni_reactor_dispatch_pre with_unbound_connection init) e
     = true.
Proof.
  intros init e. split; [reflexivity|].
  assert (L : 0 < length (connections with_unbound_connection))
    by (simpl; lia).
  destruct (@connection_init_binds_the_reactor with_unbound_connection init 0
              eq_refl eq_refl L) as (_ & R & _).
  apply R; reflexivity.
Defined.

(** X13, on a run: a new reactor, started. *)
Lemma start_registers_the_timer_selectable_witness :
  events started
  = [mkEvent ObjReactor PN_REACTOR_INIT;
     mkEvent (ObjSelectable 0) PN_SELECTABLE_INIT;
     mkEvent (ObjSelectable 0) PN_SELECTABLE_UPDATED]
  /\ selectable (reactor started) = Some 0
  /\ children (reactor started) = [0]
  /\ selectables (reactor started) = 1%Z.
Proof.
  destruct (@start_registers_the_timer_selectable (pn_reactor_initialize 0)
              eq_refl) as (E & S & C & N & _).
  split; [exact E|]. split; [exact S|]. split; [exact C|exact N].
Defined.

(** X14, on a run: a task scheduled without delay on a started reactor is
    due at once; the expiry callback publishes its event and then the
    update of the timer selectable. *)
Lemma timer_expiry_publishes_tasks_then_update_witness :
  let w := fst (pn_reactor_schedule 0 (Some 5) started) in
  events (pni_timer_expired 0 w)
  = events w ++ [mkEvent (ObjTask 0) PN_TIMER_TASK;
                 mkEvent (ObjSelectable 0) PN_SELECTABLE_UPDATED]
  /\ timer (reactor (pni_timer_expired 0 w)) = [].
Proof.
  intros w.
  assert (F : freed (collector (reactor w)) = false)
    by (vm_compute; reflexivity).
  assert (X : exists x, nth_error (sels w) 0 = Some x
                        /\ sel_context x = Some ObjReactor
                        /\ sel_terminal x = false
                        /\ pn_record_has (sel_attachments x) PNI_TERMINATED
                           = false).
  { eexists. split; [vm_compute; reflexivity|].
    repeat split; vm_compute; reflexivity. }
  destruct X as (x & X & C & T & M).
  destruct (@timer_expiry_publishes_tasks_then_update w 0 x F X C T M)
    as (E & P & _).
  split.
  - rewrite E. vm_compute. reflexivity.
  - rewrite P. vm_compute. reflexivity.
Defined.
